(** * advent-feed: the transform-and-cache pipeline of [main.go]

    A shallow embedding of the Go program that republishes a retailer's
    advent calendar as an Atom feed, and the properties of its feed
    builder, freshness cache, feed service and feed handler.

    Conventions of the embedding:
    - Go [string] is a byte sequence: [String.string] (8-bit characters).
    - Go [int] (64 bit) is [Z]; arithmetic wraps through [wrap64].
    - Go [float64] is IEEE 754 binary64: [spec_float] at precision 53 and
      maximal exponent 1024, operations rounded to nearest even.
    - A [[]Product] slice is an address into a store of backing arrays, so
      that [copy] and the in-place [sort.Slice] are visible.
    - A run-time panic is the [None] of the monad [M].
    - Library code that is not part of the program ([sort.Slice],
      [time.Parse], [Time.Format], the result of an unrepresentable
      float-to-int conversion) is an interface, [GoLib], of which
      [go_amd64] is one implementation.
    - An [http.ResponseWriter] is the record of what has been written
      to it; the XML encoder is a parameter of the handler.

    The model comes first, then the vocabulary of the statements and the
    sample data, then the properties. *)

From Stdlib Require Import ZArith List String Ascii Bool Lia.
From Stdlib Require Import Permutation Sorted.
From Stdlib Require Import Floats.SpecFloat.
From Stdlib Require Import DecimalString.
From Stdlib Require DecimalPos DecimalZ.
From Stdlib Require Import QArith Qround.
Import ListNotations.

Local Open Scope string_scope.
Local Open Scope Z_scope.

(** ** Machine integers *)

Module Int64.
Definition min_int : Z := - 2 ^ 63.
Definition max_int : Z := 2 ^ 63 - 1.

Definition in_range (z : Z) : bool := (min_int <=? z) && (z <=? max_int).

(** Two's complement wrap-around of a 64-bit signed integer. *)
Definition wrap64 (z : Z) : Z := (z + 2 ^ 63) mod 2 ^ 64 - 2 ^ 63.

Definition sub (a b : Z) : Z := wrap64 (a - b).
End Int64.

(** ** binary64 *)

Module Float64.
Definition prec : Z := 53.
Definition emax : Z := 1024.

Definition float64 : Type := spec_float.

Definition sub : float64 -> float64 -> float64 := SFsub prec emax.
Definition div : float64 -> float64 -> float64 := SFdiv prec emax.
Definition mul : float64 -> float64 -> float64 := SFmul prec emax.

(** [x <= y] and [x >= y] of Go: false as soon as one side is a NaN. *)
Definition le (x y : float64) : bool := SFleb x y.
Definition ge (x y : float64) : bool := SFleb y x.

(** An integer constant converted to [float64]. *)
Definition of_Z (z : Z) : float64 := binary_normalize prec emax z 0 false.

(** The decimal constant [n / 10^k] as the JSON decoder and the compiler
    read it: correctly rounded, which one division gives when [n] and
    [10^k] are themselves [float64] values ([n] below [2^53], [k] at most
    22). *)
Definition of_decimal (n : Z) (k : positive) : float64 :=
  div (of_Z n) (of_Z (10 ^ Zpos k)).

Definition valid (x : float64) : bool := valid_binary prec emax x.

Definition is_finite (x : float64) : bool :=
  match x with
  | S754_zero _ | S754_finite _ _ _ => true
  | _ => false
  end.

(** Integer part, fraction discarded (truncation towards zero). *)
Definition trunc (x : float64) : option Z :=
  match x with
  | S754_zero _ => Some 0
  | S754_finite s m (Zneg p) => Some (cond_Zopp s (Zpos m / 2 ^ Zpos p))
  | S754_finite s m e => Some (cond_Zopp s (Zpos m * 2 ^ e))
  | _ => None
  end.
End Float64.
Export Float64(float64).

(** ** Formatting verbs of [fmt.Sprintf] *)

Module Fmt.
(** [%d] *)
Definition d (z : Z) : string := NilZero.string_of_int (Z.to_int z).

Fixpoint zeros (n : nat) : string :=
  match n with
  | O => ""
  | S n' => "0" ++ zeros n'
  end.

(** A natural number in decimal, left-padded with zeros to [width]. *)
Definition padded (width : nat) (z : Z) : string :=
  let s := d z in zeros (width - String.length s) ++ s.

(** [m * 2^e] rounded to the nearest integer, ties to even. *)
Definition round_half_even (m e : Z) : Z :=
  match e with
  | Zneg p =>
      let den := 2 ^ Zpos p in
      let q := m / den in
      match (2 * (m mod den)) ?= den with
      | Lt => q
      | Gt => q + 1
      | Eq => if Z.even q then q else q + 1
      end
  | _ => m * 2 ^ e
  end.

Definition sign (s : bool) : string := if s then "-" else "".

Definition fixed (digits : nat) (scaled : Z) : string :=
  let unit := 10 ^ Z.of_nat digits in
  d (scaled / unit) ++
  match digits with
  | O => ""
  | _ => "." ++ padded digits (scaled mod unit)
  end.

(** [%.<digits>f] *)
Definition f (digits : nat) (x : float64) : string :=
  match x with
  | S754_nan => "NaN"
  | S754_infinity false => "+Inf"
  | S754_infinity true => "-Inf"
  | S754_zero s => sign s ++ fixed digits 0
  | S754_finite s m e =>
      sign s ++ fixed digits (round_half_even (Zpos m * 10 ^ Z.of_nat digits) e)
  end.
End Fmt.

(** ** Time *)

(** A [time.Time]: an instant, counted in nanoseconds from
    0001-01-01T00:00:00Z (the zero [Time]), and the offset of its zone in
    seconds east of UTC, which only matters when the time is printed.
    The wall clock and the monotonic clock are one clock here. *)
Record Time : Type := mkTime { instant : Z; zone : Z }.

Module GoTime.
(** [time.Time{}] *)
Definition zero : Time := mkTime 0 0.

(** [t.After(u)] *)
Definition After (t u : Time) : bool := instant u <? instant t.

(** Durations are [int64] nanoseconds; [Sub] saturates. *)
Definition saturate (d : Z) : Z :=
  if d <? Int64.min_int then Int64.min_int
  else if Int64.max_int <? d then Int64.max_int
  else d.

(** [t.Sub(u)] *)
Definition Sub (t u : Time) : Z := saturate (instant t - instant u).

Definition Second : Z := 1000000000.
Definition Minute : Z := 60 * Second.
End GoTime.

(** ** A reader and a printer for RFC 3339 timestamps

    [YYYY-MM-DDTHH:MM:SS], an optional fraction of a second, then [Z] or
    a numeric offset [+HH:MM] / [-HH:MM]. Go's [time.Parse] takes a few
    more spellings (a one-digit hour, a comma before the fraction); the
    properties below hold for every reader, and this one serves the
    examples. *)

Module Rfc3339.
Definition digit (c : ascii) : option Z :=
  let n := Z.of_N (N_of_ascii c) in
  if (48 <=? n) && (n <=? 57) then Some (n - 48) else None.

Definition obind {A B} (o : option A) (k : A -> option B) : option B :=
  match o with
  | Some a => k a
  | None => None
  end.

(** Reads exactly [n] decimal digits. *)
Fixpoint digits (n : nat) (acc : Z) (s : string) : option (Z * string) :=
  match n with
  | O => Some (acc, s)
  | S n' =>
      match s with
      | String c rest => obind (digit c) (fun v => digits n' (10 * acc + v) rest)
      | EmptyString => None
      end
  end.

Definition lit (c : ascii) (s : string) : option string :=
  match s with
  | String c' rest => if Ascii.eqb c c' then Some rest else None
  | EmptyString => None
  end.

(** The digits of a fraction, scaled to nanoseconds: the first nine
    count, the others are dropped. *)
Fixpoint fraction (weight acc : Z) (s : string) : Z * string :=
  match s with
  | String c rest =>
      match digit c with
      | Some v => fraction (weight / 10) (acc + v * weight) rest
      | None => (acc, s)
      end
  | EmptyString => (acc, s)
  end.

Definition leap (y : Z) : bool :=
  (y mod 4 =? 0) && (negb (y mod 100 =? 0) || (y mod 400 =? 0)).

Definition days_in (y m : Z) : Z :=
  if m =? 2 then (if leap y then 29 else 28)
  else if (m =? 4) || (m =? 6) || (m =? 9) || (m =? 11) then 30
  else 31.

(** Days from 0001-01-01 to the given date of the proleptic Gregorian
    calendar. *)
Definition days_from_civil (y m d : Z) : Z :=
  let y' := if m <=? 2 then y - 1 else y in
  let era := y' / 400 in
  let yoe := y' - era * 400 in
  let mp := if 2 <? m then m - 3 else m + 9 in
  let doy := (153 * mp + 2) / 5 + d - 1 in
  let doe := yoe * 365 + yoe / 4 - yoe / 100 + doy in
  era * 146097 + doe - 306.

Definition civil_from_days (days : Z) : Z * Z * Z :=
  let z := days + 306 in
  let era := z / 146097 in
  let doe := z - era * 146097 in
  let yoe := (doe - doe / 1460 + doe / 36524 - doe / 146096) / 365 in
  let doy := doe - (365 * yoe + yoe / 4 - yoe / 100) in
  let mp := (5 * doy + 2) / 153 in
  let d := doy - (153 * mp + 2) / 5 + 1 in
  let m := if mp <? 10 then mp + 3 else mp - 9 in
  let y := yoe + era * 400 in
  (if m <=? 2 then y + 1 else y, m, d).

Definition parse_zone (s : string) : option Z :=
  match s with
  | String "Z" EmptyString => Some 0
  | String c rest =>
      obind (if Ascii.eqb c "+" then Some 1
             else if Ascii.eqb c "-" then Some (-1) else None) (fun sg =>
      obind (digits 2 0 rest) (fun '(hh, rest) =>
      obind (lit ":" rest) (fun rest =>
      obind (digits 2 0 rest) (fun '(mm, rest) =>
      match rest with
      | EmptyString =>
          if (hh <=? 23) && (mm <=? 59) then Some (sg * (hh * 3600 + mm * 60))
          else None
      | _ => None
      end))))
  | EmptyString => None
  end.

Definition parse (s : string) : option Time :=
  obind (digits 4 0 s) (fun '(year, s) =>
  obind (lit "-" s) (fun s =>
  obind (digits 2 0 s) (fun '(month, s) =>
  obind (lit "-" s) (fun s =>
  obind (digits 2 0 s) (fun '(day, s) =>
  obind (lit "T" s) (fun s =>
  obind (digits 2 0 s) (fun '(hour, s) =>
  obind (lit ":" s) (fun s =>
  obind (digits 2 0 s) (fun '(min, s) =>
  obind (lit ":" s) (fun s =>
  obind (digits 2 0 s) (fun '(sec, s) =>
  let '(nanos, s) :=
    match s with
    | String "." (String c rest) =>
        match digit c with
        | Some _ => fraction 100000000 0 (String c rest)
        | None => (0, s)
        end
    | _ => (0, s)
    end in
  obind (parse_zone s) (fun off =>
  if (1 <=? month) && (month <=? 12) && (1 <=? day) && (day <=? days_in year month)
     && (hour <=? 23) && (min <=? 59) && (sec <=? 59)
  then
    let secs := days_from_civil year month day * 86400
                + hour * 3600 + min * 60 + sec - off in
    Some (mkTime (secs * GoTime.Second + nanos) off)
  else None)))))))))))).

Definition format (t : Time) : string :=
  let local := instant t / GoTime.Second + zone t in
  let '(y, m, d) := civil_from_days (local / 86400) in
  let tod := local mod 86400 in
  (if y <? 0 then "-" ++ Fmt.padded 4 (- y) else Fmt.padded 4 y) ++ "-" ++
Fmt.padded 2 m ++ "-" ++ Fmt.padded 2 d ++ "T" ++
  Fmt.padded 2 (tod / 3600) ++ ":" ++ Fmt.padded 2 (tod / 60 mod 60) ++ ":" ++
  Fmt.padded 2 (tod mod 60) ++
  (if zone t =? 0 then "Z"
   else
     let a := Z.abs (zone t) in
     (if zone t <? 0 then "-" else "+") ++
     Fmt.padded 2 (a / 3600) ++ ":" ++ Fmt.padded 2 (a / 60 mod 60)).
End Rfc3339.

(** ** Data model *)

Module StoreConfig.
Record t : Type := mk
  { Name : string; APIURL : string; BaseURL : string; PortalID : string }.
End StoreConfig.

Definition galaxus : StoreConfig.t :=
  StoreConfig.mk "Galaxus" "https://www.galaxus.ch/api/graphql/get-adventcalendar"
                 "https://www.galaxus.ch" "22".

Definition digitec : StoreConfig.t :=
  StoreConfig.mk "Digitec" "https://www.digitec.ch/api/graphql/get-adventcalendar"
                 "https://www.digitec.ch" "25".

(** [stores] *)
Definition stores (name : string) : option StoreConfig.t :=
  if String.eqb name "galaxus" then Some galaxus
  else if String.eqb name "digitec" then Some digitec
  else None.

Module Header.
Record t : Type := mk
  { Title : string; Description : string; ImageURL : string }.
End Header.

Module Image.
Record t : Type := mk { URL : string }.
End Image.

(** The anonymous struct of the field [Product.Product]. *)
Module ProductInfo.
Record t : Type := mk
  { ID : string;
    ProductID : Z;
    Name : string;
    NameProperties : string;
    ProductTypeName : string;
    BrandName : string;
    AverageRating : float64;
    TotalRatings : Z;
    Images : list Image.t }.
End ProductInfo.

Module Price.
Record t : Type := mk { AmountInclusive : float64; Currency : string }.
End Price.

Module SalesInformation.
Record t : Type := mk
  { NumberOfItems : Z; NumberOfItemsSold : Z; ValidFrom : string }.
End SalesInformation.

Module OriginalPrice.
Record t : Type := mk { AmountInclusive : float64 }.
End OriginalPrice.

Module InsteadOfPrice.
Record t : Type := mk { Price : OriginalPrice.t }.
End InsteadOfPrice.

Module Offer.
(** [InsteadOfPrice] is a pointer: [None] is [nil]. *)
Record t : Type := mk
  { Price : Price.t;
    SalesInformation : SalesInformation.t;
    InsteadOfPrice : option InsteadOfPrice.t }.
End Offer.

Module Product.
Record t : Type := mk { Product : ProductInfo.t; Offer : Offer.t }.

(** The zero value, as [make] fills a new array. *)
Definition zero : t :=
  mk (ProductInfo.mk "" 0 "" "" "" "" (S754_zero false) 0 [])
     (Offer.mk (Price.mk (S754_zero false) "") (SalesInformation.mk 0 0 "") None).
End Product.

(** A [[]Product]: [nil], or the address of its backing array. *)
Inductive slice : Type :=
| nil_slice
| slice_at (addr : nat).

Module AdventCalendar.
Record t : Type := mk
  { CurrentDate : string; Header : Header.t; Products : slice }.
End AdventCalendar.

Module AtomAuthor.
Record t : Type := mk { Name : string; URI : string }.
End AtomAuthor.

Module AtomLink.
Record t : Type := mk { Href : string; Rel : string; Type_ : string }.
End AtomLink.

Module AtomContent.
Record t : Type := mk { Type_ : string; Content : string }.
End AtomContent.

Module AtomEntry.
Record t : Type := mk
  { Title : string;
    Link : AtomLink.t;
    ID : string;
    Updated : string;
    Summary : AtomContent.t;
    Content : AtomContent.t }.
End AtomEntry.

Module AtomFeed.
Record t : Type := mk
  { XMLNS : string;
    Title : string;
    Subtitle : string;
    Link : AtomLink.t;
    Icon : string;
    Updated : string;
    ID : string;
    Author : option AtomAuthor.t;
    Entries : list AtomEntry.t }.
End AtomFeed.

Module Cache.
(** [data] is a pointer to the stored feed, [None] when [nil];
    [duration] is in nanoseconds. The mutex is left out: the calls
    below run one at a time. *)
Record t : Type := mk
  { data : option AtomFeed.t; fetchedAt : Time; duration : Z }.
End Cache.

Module Config.
Record t : Type := mk
  { Store : StoreConfig.t; UserAgent : string; Port : Z; CacheDuration : Z }.
End Config.

(** ** The library interface *)

Section Orders.
Context {A : Type} (less : A -> A -> bool).

(** What [sort.Slice] asks of [less]. *)
Record strict_weak_order : Prop :=
  { swo_irrefl : forall x, less x x = false;
    swo_trans : forall x y z, less x y = true -> less y z = true -> less x z = true;
    swo_incomparable :
      forall x y z, less x y = false -> less y z = false -> less x z = false }.

(** No element is [less] than one placed before it. *)
Definition sorted_by : list A -> Prop :=
  StronglySorted (fun x y => less y x = false).
End Orders.

Class GoLib : Type :=
  { (** [sort.Slice], as a function from the contents of the slice before
        the call to its contents after. *)
    sort_Slice : forall {A : Type}, (A -> A -> bool) -> list A -> list A;
    sort_Slice_perm :
      forall A (less : A -> A -> bool) l, Permutation l (sort_Slice less l);
    sort_Slice_sorted :
      forall A (less : A -> A -> bool) l,
        strict_weak_order less -> sorted_by less (sort_Slice less l);
    (** The sort sees the elements through the answers of [less] only. *)
    sort_Slice_natural :
      forall A B (f : A -> B) (less : B -> B -> bool) (less' : A -> A -> bool) l,
        (forall x y, In x l -> In y l -> less' x y = less (f x) (f y)) ->
        sort_Slice less (map f l) = map f (sort_Slice less' l);
    (** [time.Parse(time.RFC3339, s)]; [None] is a non-nil error. *)
    time_Parse : string -> option Time;
    (** [t.Format(time.RFC3339)] *)
    time_Format : Time -> string;
    (** The result of [int(x)] when [x] is a NaN, an infinity, or has an
        integer part outside [int]: the language leaves it to the
        implementation. *)
    int_unrepresentable : float64 -> Z }.

(** [int(x)] for a [float64] [x]. *)
Definition int_of_float64 {lib : GoLib} (x : float64) : Z :=
  match Float64.trunc x with
  | Some z => if Int64.in_range z then z else int_unrepresentable x
  | None => int_unrepresentable x
  end.

(** ** Insertion sort

    What [sort.Slice] runs on slices of at most twelve elements. *)

Section InsertionSort.
Context {A : Type} (less : A -> A -> bool).

(** The inner loop: [x] moves left past every element it is [less]
    than. The sorted prefix is held right to left. *)
Fixpoint sift (x : A) (rprefix : list A) : list A :=
  match rprefix with
  | [] => [x]
  | y :: rest => if less x y then y :: sift x rest else x :: rprefix
  end.

Definition insertionSort (l : list A) : list A :=
  rev (fold_left (fun rprefix x => sift x rprefix) l []).
End InsertionSort.

(** ** The world the program runs in *)

(** What one round trip to the API can come back with: the transport
    fails, or a response arrives with its status, its body, and what the
    JSON decoder makes of the body (an error, or the calendars of the
    decoded envelopes, their products not yet placed in memory). *)
Module Upstream.
Record Calendar : Type := mkCalendar
  { CurrentDate : string; Header : Header.t; Products : list Product.t }.

Inductive Response : Type :=
| TransportError (err : string)
| HttpResponse (status : Z) (body : string) (decoded : string + list Calendar).
End Upstream.

Record World : Type := mkWorld
  { heap : list (list Product.t);  (* backing arrays of the [[]Product] slices *)
    ticks : nat;                   (* readings of the clock taken so far *)
    fetches : nat;                 (* requests sent upstream so far *)
    cache : Cache.t;               (* the global [cache] *)
    logged : list string }.        (* lines written by [log] *)

Definition set_heap (h : list (list Product.t)) (w : World) : World :=
  mkWorld h (ticks w) (fetches w) (cache w) (logged w).
Definition set_ticks (n : nat) (w : World) : World :=
  mkWorld (heap w) n (fetches w) (cache w) (logged w).
Definition set_fetches (n : nat) (w : World) : World :=
  mkWorld (heap w) (ticks w) n (cache w) (logged w).
Definition set_cache (c : Cache.t) (w : World) : World :=
  mkWorld (heap w) (ticks w) (fetches w) c (logged w).
Definition set_logged (l : list string) (w : World) : World :=
  mkWorld (heap w) (ticks w) (fetches w) (cache w) l.

(** Computations over the world; [None] is a run-time panic. *)
Definition M (A : Type) : Type := World -> option (A * World).

Definition ret {A} (a : A) : M A := fun w => Some (a, w).

Definition bind {A B} (m : M A) (k : A -> M B) : M B :=
  fun w =>
    match m w with
    | Some (a, w') => k a w'
    | None => None
    end.

Definition panic {A} : M A := fun _ => None.

Definition lift {A} (o : option A) : M A :=
  match o with
  | Some a => ret a
  | None => panic
  end.

Declare Scope go_scope.
Delimit Scope go_scope with go.
Notation "x <- m ;; k" := (bind m (fun x => k))
  (at level 61, m at next level, right associativity) : go_scope.
Notation "m ;; k" := (bind m (fun _ => k))
  (at level 61, right associativity) : go_scope.

Definition modify (f : World -> World) : M unit := fun w => Some (tt, f w).
Definition gets {A} (f : World -> A) : M A := fun w => Some (f w, w).

(** *** Slices *)

Fixpoint update {A} (l : list A) (i : nat) (a : A) : option (list A) :=
  match l, i with
  | [], _ => None
  | _ :: l', O => Some (a :: l')
  | x :: l', S i' => option_map (cons x) (update l' i' a)
  end.

(** The contents of a slice. *)
Definition load (s : slice) : M (list Product.t) :=
  match s with
  | nil_slice => ret []
  | slice_at a => bind (gets heap) (fun h => lift (nth_error h a))
  end.

(** Overwrites the contents of a slice, length unchanged. *)
Definition store (s : slice) (arr : list Product.t) : M unit :=
  match s with
  | nil_slice => match arr with [] => ret tt | _ => panic end
  | slice_at a =>
      bind (gets heap) (fun h =>
      bind (lift (update h a arr)) (fun h' =>
      modify (set_heap h')))
  end.

(** [len(s)] *)
Definition len (s : slice) : M nat := bind (load s) (fun arr => ret (List.length arr)).

(** [make([]Product, n)]: a new array of [n] zero values. *)
Definition make (n : nat) : M slice :=
  bind (gets heap) (fun h =>
  bind (modify (set_heap (h ++ [repeat Product.zero n]))) (fun _ =>
  ret (slice_at (List.length h)))).

(** [copy(dst, src)]: as many elements as the shorter of the two holds. *)
Definition copy (dst src : slice) : M nat :=
  bind (load dst) (fun d =>
  bind (load src) (fun s =>
  let n := Nat.min (List.length d) (List.length s) in
  bind (store dst (firstn n s ++ skipn n d)) (fun _ =>
  ret n))).

(** [sort.Slice(s, less)], in place. *)
Definition sort_Slice_in_place {lib : GoLib} (s : slice)
    (less : Product.t -> Product.t -> bool) : M unit :=
  bind (load s) (fun arr => store s (sort_Slice less arr)).

(** [s[:n]] of a string: out of range is a panic. *)
Definition prefix_to (s : string) (n : nat) : option string :=
  if (n <=? String.length s)%nat then Some (substring 0 n s) else None.

(** The quotation mark and the line feed. *)
Definition dq : string := String (ascii_of_nat 34) EmptyString.
Definition nl : string := String (ascii_of_nat 10) EmptyString.

(** A Go result pair [(value, error)]. *)
Inductive result (A : Type) : Type :=
| Ok (a : A)
| Err (err : string).
Arguments Ok {A} a.
Arguments Err {A} err.

(** ** The program *)

Section Program.
Context {lib : GoLib}.

(** The global [config], set once by [main]; the clock, by the number
    of the reading; the API, by the number of the request. *)
Variable config : Config.t.
Variable clock : nat -> Time.
Variable upstream : nat -> Upstream.Response.

Local Open Scope go_scope.

(** [time.Now()] *)
Definition time_Now : M Time :=
  n <- gets ticks ;;
  modify (set_ticks (S n)) ;;
  ret (clock n).

(** [time.Since(t)] *)
Definition time_Since (t : Time) : M Z :=
  now <- time_Now ;;
  ret (GoTime.Sub now t).

(** [log.Println(line)] *)
Definition log_Println (line : string) : M unit :=
  modify (fun w => set_logged (logged w ++ [line]) w).

(** *** Cache *)

(** [Cache.Get]: the clock is read only when a feed is stored. *)
Definition Cache_Get : M (option AtomFeed.t) :=
  c <- gets cache ;;
  match Cache.data c with
  | Some feed =>
      age <- time_Since (Cache.fetchedAt c) ;;
      if age <? Cache.duration c then ret (Some feed) else ret None
  | None => ret None
  end.

(** [Cache.Set] *)
Definition Cache_Set (feed : AtomFeed.t) : M unit :=
  modify (fun w =>
    set_cache (Cache.mk (Some feed) (Cache.fetchedAt (cache w)) (Cache.duration (cache w))) w) ;;
  now <- time_Now ;;
  modify (fun w =>
    set_cache (Cache.mk (Cache.data (cache w)) now (Cache.duration (cache w))) w).

(** *** Upstream client *)

(** Places decoded products in memory. *)
Definition alloc (products : list Product.t) : M slice :=
  match products with
  | [] => ret nil_slice
  | _ =>
      h <- gets heap ;;
      modify (set_heap (h ++ [products])) ;;
      ret (slice_at (List.length h))
  end.

(** [fetchAdventCalendar]: the request is built from constants and
    [config], and building it does not fail; the round trip is
    [upstream]. *)
Definition fetchAdventCalendar : M (result AdventCalendar.t) :=
  n <- gets fetches ;;
  modify (set_fetches (S n)) ;;
  match upstream n with
  | Upstream.TransportError err => ret (Err ("failed to fetch data: " ++ err))
  | Upstream.HttpResponse status body decoded =>
      if negb (status =? 200) then
        ret (Err ("API returned status " ++ Fmt.d status ++ ": " ++ body))
      else
        match decoded with
        | inl err => ret (Err ("failed to decode response: " ++ err))
        | inr [] => ret (Err "empty response from API")
        | inr (c :: _) =>
            products <- alloc (Upstream.Products c) ;;
            ret (Ok (AdventCalendar.mk (Upstream.CurrentDate c) (Upstream.Header c) products))
        end
  end.

(** *** Feed builder *)

(** [calculateDiscount] *)
Definition calculateDiscount (current original : float64) : Z :=
  if Float64.le original (Float64.of_Z 0) || Float64.ge current original then 0
  else
    int_of_float64
      (Float64.mul (Float64.div (Float64.sub original current) original)
                   (Float64.of_Z 100)).

(** [parseValidFrom] *)
Definition parseValidFrom (validFrom : string) : Time :=
  match time_Parse validFrom with
  | Some t => t
  | None => GoTime.zero
  end.

(** The [less] of [buildAtomFeed]. *)
Definition later (pi pj : Product.t) : bool :=
  let ti := parseValidFrom (SalesInformation.ValidFrom (Offer.SalesInformation (Product.Offer pi))) in
  let tj := parseValidFrom (SalesInformation.ValidFrom (Offer.SalesInformation (Product.Offer pj))) in
  GoTime.After ti tj.

(** The locals of the loop body of [buildAtomFeed], for a product [p]. *)
Section Entry.
Variable p : Product.t.

Let info : ProductInfo.t := Product.Product p.
Let offer : Offer.t := Product.Offer p.
Let sales : SalesInformation.t := Offer.SalesInformation offer.
Let price : Price.t := Offer.Price offer.

Definition productURL : string :=
  StoreConfig.BaseURL (Config.Store config) ++ "/product/" ++ Fmt.d (ProductInfo.ProductID info).

Definition stableID : string := "urn:advent:" ++ Fmt.d (ProductInfo.ProductID info).

Definition discount : Z :=
  match Offer.InsteadOfPrice offer with
  | Some instead =>
      calculateDiscount (Price.AmountInclusive price)
                        (OriginalPrice.AmountInclusive (InsteadOfPrice.Price instead))
  | None => 0
  end.

Definition title : string :=
  let title := ProductInfo.BrandName info ++ ": " ++ ProductInfo.Name info in
  let title :=
    if negb (String.eqb (ProductInfo.NameProperties info) "")
    then title ++ " - " ++ ProductInfo.NameProperties info
    else title in
  if 0 <? discount then "[" ++ Fmt.d discount ++ "% off] " ++ title else title.

Definition updatedStr : string :=
  time_Format (parseValidFrom (SalesInformation.ValidFrom sales)).

Definition imageHTML : option string :=
  if (0 <? List.length (ProductInfo.Images info))%nat then
    match nth_error (ProductInfo.Images info) 0 with
    | Some image =>
        Some ("<img src=" ++ dq ++ Image.URL image ++ dq ++ " alt=" ++ dq
              ++ ProductInfo.Name info ++ dq ++ " style=" ++ dq ++ "max-width:400px;"
              ++ dq ++ "/><br/><br/>")
    | None => None
    end
  else Some "".

Definition remaining : Z :=
  Int64.sub (SalesInformation.NumberOfItems sales) (SalesInformation.NumberOfItemsSold sales).

Definition stockInfo : string :=
  Fmt.d remaining ++ "/" ++ Fmt.d (SalesInformation.NumberOfItems sales) ++ " remaining".

Definition priceInfo : string :=
  match Offer.InsteadOfPrice offer with
  | Some instead =>
      "<strong>" ++ Fmt.f 2 (Price.AmountInclusive price) ++ " " ++ Price.Currency price
      ++ "</strong> <s>"
      ++ Fmt.f 2 (OriginalPrice.AmountInclusive (InsteadOfPrice.Price instead)) ++ " "
      ++ Price.Currency price ++ "</s>"
  | None => Fmt.f 2 (Price.AmountInclusive price) ++ " " ++ Price.Currency price
  end.

Definition ratingInfo : string :=
  if 0 <? ProductInfo.TotalRatings info then
    Fmt.f 1 (ProductInfo.AverageRating info) ++ "/5 ("
    ++ Fmt.d (ProductInfo.TotalRatings info) ++ " reviews)"
  else "".

Definition content (imageHTML : string) : string :=
  let content :=
    imageHTML ++ "<p><strong>Brand:</strong> " ++ ProductInfo.BrandName info ++ "</p>" ++ nl
    ++ "<p><strong>Type:</strong> " ++ ProductInfo.ProductTypeName info ++ "</p>" ++ nl
    ++ "<p><strong>Price:</strong> " ++ priceInfo ++ "</p>" ++ nl
    ++ "<p><strong>Stock:</strong> " ++ stockInfo ++ "</p>" in
  let content :=
    if negb (String.eqb ratingInfo "")
    then content ++ nl ++ "<p><strong>Rating:</strong> " ++ ratingInfo ++ "</p>"
    else content in
  content ++ "<p><a href=" ++ dq ++ productURL ++ dq ++ ">View on "
  ++ StoreConfig.Name (Config.Store config) ++ "</a></p>".

(** One turn of the loop: the entry appended for [p]. *)
Definition entry : option AtomEntry.t :=
  match imageHTML with
  | Some image =>
      Some (AtomEntry.mk
              title
              (AtomLink.mk productURL "alternate" "")
              stableID
              updatedStr
              (AtomContent.mk "text"
                 (ProductInfo.BrandName info ++ " - " ++ ProductInfo.ProductTypeName info
                  ++ " - " ++ priceInfo))
              (AtomContent.mk "html" (content image)))
  | None => None
  end.
End Entry.

(** [for _, p := range products { ...; entries = append(entries, ...) }] *)
Fixpoint range_products (products : list Product.t) (entries : list AtomEntry.t)
  : option (list AtomEntry.t) :=
  match products with
  | [] => Some entries
  | p :: rest =>
      match entry p with
      | Some e => range_products rest (entries ++ [e])
      | None => None
      end
  end.

(** The block [// Fix protocol-relative URL for icon] of
    [buildAtomFeed]: [iconURL] after it. The slice expression is partial,
    the guard before it is evaluated first. *)
Definition fixIconURL (iconURL : string) : option string :=
  if (2 <? String.length iconURL)%nat then
    match prefix_to iconURL 2 with
    | Some head => Some (if String.eqb head "//" then "https:" ++ iconURL else iconURL)
    | None => None
    end
  else Some iconURL.

(** [buildAtomFeed] *)
Definition buildAtomFeed (calendar : AdventCalendar.t) : M AtomFeed.t :=
  n <- len (AdventCalendar.Products calendar) ;;
  products <- make n ;;
  copy products (AdventCalendar.Products calendar) ;;
  sort_Slice_in_place products later ;;
  sorted <- load products ;;
  entries <- lift (range_products sorted []) ;;
  iconURL <- lift (fixIconURL (Header.ImageURL (AdventCalendar.Header calendar))) ;;
  now <- time_Now ;;
  let store := Config.Store config in
  ret (AtomFeed.mk
         "http://www.w3.org/2005/Atom"
         (Header.Title (AdventCalendar.Header calendar) ++ " - " ++ StoreConfig.Name store)
         (Header.Description (AdventCalendar.Header calendar))
         (AtomLink.mk (StoreConfig.BaseURL store ++ "/advent-calendar") "alternate" "")
         iconURL
         (time_Format now)
         ("urn:advent-calendar:" ++ StoreConfig.Name store)
         (Some (AtomAuthor.mk (StoreConfig.Name store) (StoreConfig.BaseURL store)))
         entries).

(** *** Feed service *)

(** [getFeed] *)
Definition getFeed : M (result AtomFeed.t) :=
  cached <- Cache_Get ;;
  match cached with
  | Some feed =>
      log_Println "Serving from cache" ;;
      ret (Ok feed)
  | None =>
      log_Println "Fetching fresh data from API" ;;
      fetched <- fetchAdventCalendar ;;
      match fetched with
      | Err err => ret (Err err)
      | Ok calendar =>
          feed <- buildAtomFeed calendar ;;
          Cache_Set feed ;;
          ret (Ok feed)
      end
  end.
End Program.

(** [cache = &Cache{duration: config.CacheDuration}] *)
Definition newCache (duration : Z) : Cache.t := Cache.mk None GoTime.zero duration.

(** The world when [main] starts serving. *)
Definition initial (config : Config.t) : World :=
  mkWorld [] 0 0 (newCache (Config.CacheDuration config)) [].

(** ** The boundary: the handler of [/feed] *)

(** What a handler has done to its [http.ResponseWriter]: the header
    map, the status and the header as sent once the status is written,
    and the body. The handlers here set the content type before they
    write, so that none is guessed from the body. *)
Module ResponseWriter.
Record t : Type := mk
  { header : list (string * string);
    sent : option (Z * list (string * string));
    body : string }.

(** The writer a handler is given. *)
Definition fresh : t := mk [] None "".

(** [w.Header().Set(key, value)], for a key in canonical form. *)
Definition Header_Set (key value : string) (w : t) : t :=
  mk ((key, value) :: filter (fun kv => negb (String.eqb (fst kv) key)) (header w))
     (sent w) (body w).

(** [w.WriteHeader(code)]: a second call is ignored. *)
Definition WriteHeader (code : Z) (w : t) : t :=
  match sent w with
  | Some _ => w
  | None => mk (header w) (Some (code, header w)) (body w)
  end.

(** [w.Write(data)]: writes the status 200 first if none is written. *)
Definition Write (data : string) (w : t) : t :=
  let w := WriteHeader 200 w in
  mk (header w) (sent w) (body w ++ data).

(** The status line and a header field of the response as sent. *)
Definition status (w : t) : option Z := option_map fst (sent w).

Definition field (key : string) (w : t) : option string :=
  match sent w with
  | Some (_, h) => option_map snd (find (fun kv => String.eqb (fst kv) key) h)
  | None => None
  end.
End ResponseWriter.

(** [http.Error(w, error, code)], on a writer without a content length
    or a content encoding set. *)
Definition http_Error (w : ResponseWriter.t) (error : string) (code : Z) : ResponseWriter.t :=
  let w := ResponseWriter.Header_Set "Content-Type" "text/plain; charset=utf-8" w in
  let w := ResponseWriter.Header_Set "X-Content-Type-Options" "nosniff" w in
  let w := ResponseWriter.WriteHeader code w in
  ResponseWriter.Write (error ++ nl) w.

(** [xml.Header] *)
Definition xml_Header : string :=
  "<?xml version=" ++ dq ++ "1.0" ++ dq ++ " encoding=" ++ dq ++ "UTF-8" ++ dq ++ "?>" ++ nl.

Section Boundary.
Context {lib : GoLib}.
Variable config : Config.t.
Variable clock : nat -> Time.
Variable upstream : nat -> Upstream.Response.

(** [enc.Encode(feed)] of an encoder indented by two spaces: the bytes
    it writes, and its error if it has one. *)
Variable xml_Encode : AtomFeed.t -> string * option string.

Local Open Scope go_scope.

(** [feedHandler]; the request is not looked at. *)
Definition feedHandler (w : ResponseWriter.t) : M ResponseWriter.t :=
  r <- getFeed config clock upstream ;;
  match r with
  | Err err =>
      log_Println ("Error fetching feed: " ++ err) ;;
      ret (http_Error w "Failed to fetch feed" 500)
  | Ok feed =>
      let w :=
        ResponseWriter.Header_Set "Content-Type" "application/atom+xml; charset=utf-8" w in
      let w := ResponseWriter.WriteHeader 200 w in
      let w := ResponseWriter.Write xml_Header w in
      let (written, err) := xml_Encode feed in
      let w := ResponseWriter.Write written w in
      match err with
      | Some err =>
          log_Println ("Error encoding feed: " ++ err) ;;
          ret w
      | None => ret w
      end
  end.
End Boundary.

(** * The vocabulary of the statements *)

Local Open Scope list_scope.

(** A slice that can be read: [nil], or an address of the store. *)
Definition holds (w : World) (s : slice) (arr : list Product.t) : Prop :=
  match s with
  | nil_slice => arr = []
  | slice_at a => nth_error (heap w) a = Some arr
  end.

Section Vocabulary.
Context {lib : GoLib}.

(** The valid-from time of a product, as the builder reads it. *)
Definition validFromOf (p : Product.t) : Time :=
  parseValidFrom (SalesInformation.ValidFrom (Offer.SalesInformation (Product.Offer p))).

Definition parseable (p : Product.t) : Prop :=
  exists t,
    time_Parse (SalesInformation.ValidFrom (Offer.SalesInformation (Product.Offer p))) = Some t.

(** The order of the entries as the specification words it, over the
    products in the order of their entries: of two entries whose dates
    parse, the one comes before the other exactly when its valid-from
    time is not the earlier. *)
Definition descending_iff (sorted : list Product.t) : Prop :=
  forall i j pi pj,
    i <> j ->
    nth_error sorted i = Some pi -> nth_error sorted j = Some pj ->
    parseable pi -> parseable pj ->
    ((i < j)%nat <-> instant (validFromOf pj) <= instant (validFromOf pi)).

Variable config : Config.t.

(** The feed assembled from the sorted products' entries, the icon and
    the reading of the clock. *)
Definition feed_of (calendar : AdventCalendar.t) (entries : list AtomEntry.t)
    (iconURL : string) (now : Time) : AtomFeed.t :=
  let store := Config.Store config in
  AtomFeed.mk
    "http://www.w3.org/2005/Atom"
    (Header.Title (AdventCalendar.Header calendar) ++ " - " ++ StoreConfig.Name store)%string
    (Header.Description (AdventCalendar.Header calendar))
    (AtomLink.mk (StoreConfig.BaseURL store ++ "/advent-calendar")%string "alternate" "")
    iconURL
    (time_Format now)
    ("urn:advent-calendar:" ++ StoreConfig.Name store)%string
    (Some (AtomAuthor.mk (StoreConfig.Name store) (StoreConfig.BaseURL store)))
    entries.
End Vocabulary.

(** Two readings of one product that differ at most in the price, the
    stock and the rating. *)
Definition differ_only_in_price_stock_rating (p q : Product.t) : Prop :=
  let a := Product.Product p in
  let b := Product.Product q in
  ProductInfo.ID a = ProductInfo.ID b /\
  ProductInfo.ProductID a = ProductInfo.ProductID b /\
  ProductInfo.Name a = ProductInfo.Name b /\
  ProductInfo.NameProperties a = ProductInfo.NameProperties b /\
  ProductInfo.ProductTypeName a = ProductInfo.ProductTypeName b /\
  ProductInfo.BrandName a = ProductInfo.BrandName b /\
  ProductInfo.Images a = ProductInfo.Images b /\
  SalesInformation.ValidFrom (Offer.SalesInformation (Product.Offer p))
  = SalesInformation.ValidFrom (Offer.SalesInformation (Product.Offer q)).

(** The claim of the icon rewrite as the specification words it: every
    URL that begins with two slashes gets the scheme, every other URL is
    passed through. *)
Definition icon_rewrite_as_specified (url : string) : Prop :=
  (String.prefix "//" url = true -> fixIconURL url = Some ("https:" ++ url)%string) /\
  (String.prefix "//" url = false -> fixIconURL url = Some url).

(** The world once [getFeed] has logged that it goes upstream. *)
Definition asking (w : World) : World :=
  set_logged (logged w ++ ["Fetching fresh data from API"%string]) w.

(** The exact value of a finite [float64]. *)
Definition exact (x : float64) : option Q :=
  match x with
  | S754_zero _ => Some 0%Q
  | S754_finite s m (Zneg p) => Some (Qmake (cond_Zopp s (Zpos m)) (2 ^ p))
  | S754_finite s m e => Some (inject_Z (cond_Zopp s (Zpos m * 2 ^ e)))
  | _ => None
  end.

Section Discount.
Context {lib : GoLib}.

(** The discount as the specification words it, the quotient taken
    exactly: 0 without an original price, 0 when the original price is
    not positive or not above the current one, else the floor of
    [(O - C) / O * 100]; and always at least 0 and below 100. *)
Definition discount_as_specified (p : Product.t) : Prop :=
  match Offer.InsteadOfPrice (Product.Offer p) with
  | None => discount p = 0
  | Some instead =>
      let C := Price.AmountInclusive (Offer.Price (Product.Offer p)) in
      let O := OriginalPrice.AmountInclusive (InsteadOfPrice.Price instead) in
      if Float64.le O (Float64.of_Z 0) || Float64.ge C O then discount p = 0
      else
        forall c o, exact C = Some c -> exact O = Some o ->
                    discount p = Qfloor ((o - c) / o * 100)%Q
  end /\
  0 <= discount p < 100.
End Discount.

(** The failures of the client. *)
Inductive Cause : Type :=
| NetworkError
| UpstreamStatusError
| DecodeError
| EmptyPayloadError.

(** What is wrong with a response: nothing, when it has the status 200
    and decodes to at least one envelope. *)
Definition cause (r : Upstream.Response) : option Cause :=
  match r with
  | Upstream.TransportError _ => Some NetworkError
  | Upstream.HttpResponse status _ decoded =>
      if status =? 200 then
        match decoded with
        | inl _ => Some DecodeError
        | inr [] => Some EmptyPayloadError
        | inr (_ :: _) => None
        end
      else Some UpstreamStatusError
  end.

(** The failure a caller reads from the text of an error. *)
Definition cause_of_message (msg : string) : option Cause :=
  if String.prefix "failed to fetch data: " msg then Some NetworkError
  else if String.prefix "API returned status " msg then Some UpstreamStatusError
  else if String.prefix "failed to decode response: " msg then Some DecodeError
  else if String.eqb msg "empty response from API" then Some EmptyPayloadError
  else None.

Definition failed {A} (r : result A) : bool :=
  match r with
  | Err _ => true
  | Ok _ => false
  end.

Section Serving.
Context {lib : GoLib}.
Variable config : Config.t.
Variable clock : nat -> Time.
Variable upstream : nat -> Upstream.Response.

(** [n] calls of [getFeed], one after the other, and their results. *)
Fixpoint serve (n : nat) : M (list (result AtomFeed.t)) :=
  match n with
  | O => ret []
  | S n' =>
      bind (getFeed config clock upstream) (fun r =>
      bind (serve n') (fun rs =>
      ret (r :: rs)))
  end.
End Serving.

(** * Sample data *)

(** A calendar of three products, out of order, for the examples. *)
Module Sample.
Definition config : Config.t := Config.mk galaxus "Mozilla/5.0" 8080 (5 * GoTime.Minute).

(** One reading of the clock a second, from 2024-12-01T00:00:00Z. *)
Definition clock (n : nat) : Time :=
  mkTime (63868608000000000000 + Z.of_nat n * GoTime.Second) 0.

Definition product (id : Z) (name validFrom : string) (price : float64)
    (instead : option float64) : Product.t :=
  Product.mk
    (ProductInfo.mk "" id name "" "Gadget" "Acme" (S754_zero false) 0 [])
    (Offer.mk (Price.mk price "CHF") (SalesInformation.mk 50 20 validFrom)
              (option_map (fun o => InsteadOfPrice.mk (OriginalPrice.mk o)) instead)).

Definition early : Product.t :=
  product 1 "Lamp" "2024-12-01T00:00:00Z" (Float64.of_decimal 1990 2) None.
Definition late : Product.t :=
  product 2 "Kettle" "2024-12-03T00:00:00+01:00" (Float64.of_decimal 800 2)
          (Some (Float64.of_decimal 1000 2)).
Definition undated : Product.t :=
  product 3 "Mug" "soon" (Float64.of_Z 0) (Some (Float64.of_Z 10)).

Definition products : list Product.t := [early; undated; late].

Definition calendar : AdventCalendar.t :=
  AdventCalendar.mk "2024-12-03" (Header.mk "Advent" "Daily deals" "//example.com/x.png")
                    (slice_at 0).

Definition world : World := mkWorld [products] 0 0 (newCache (5 * GoTime.Minute)) [].
End Sample.

(** The sample calendar a day later: prices, stock and ratings moved. *)
Module Later.
Definition reprice (p : Product.t) : Product.t :=
  let info := Product.Product p in
  let sales := Offer.SalesInformation (Product.Offer p) in
  Product.mk
    (ProductInfo.mk (ProductInfo.ID info) (ProductInfo.ProductID info) (ProductInfo.Name info)
       (ProductInfo.NameProperties info) (ProductInfo.ProductTypeName info)
       (ProductInfo.BrandName info) (Float64.of_decimal 45 1) 12 (ProductInfo.Images info))
    (Offer.mk (Price.mk (Float64.of_decimal 500 2) "EUR")
       (SalesInformation.mk 40 39 (SalesInformation.ValidFrom sales))
       (Some (InsteadOfPrice.mk (OriginalPrice.mk (Float64.of_decimal 2500 2))))).

Definition products : list Product.t := map reprice Sample.products.

Definition world : World :=
  mkWorld [[]; products] 7 1 (newCache GoTime.Minute) ["Fetching fresh data from API"].

Definition calendar : AdventCalendar.t :=
  AdventCalendar.mk "2024-12-04" (Header.mk "Advent" "Daily deals" "") (slice_at 1).
End Later.

(** The calendar of the one-product scenario. *)
Module Scenario.
(** The product of the scenario: brand, name, prices and stock are
    fixed; the other fields are free. *)
Definition widget (id : string) (productID : Z) (nameProperties productTypeName : string)
    (averageRating : float64) (totalRatings : Z) (images : list Image.t)
    (validFrom : string) : Product.t :=
  Product.mk
    (ProductInfo.mk id productID "Widget" nameProperties productTypeName "Acme"
                    averageRating totalRatings images)
    (Offer.mk (Price.mk (Float64.of_decimal 800 2) "CHF")
              (SalesInformation.mk 50 20 validFrom)
              (Some (InsteadOfPrice.mk (OriginalPrice.mk (Float64.of_decimal 1000 2))))).

Definition validFrom : string := "2024-12-06T08:00:00+01:00".

Definition product : Product.t :=
  widget "a1b2" 4711 "black" "Gadget" (Float64.of_decimal 45 1) 12
         [Image.mk "//img.example.com/widget.png"] validFrom.

Definition world : World := mkWorld [[product]] 0 0 (newCache (5 * GoTime.Minute)) [].

Definition calendar : AdventCalendar.t :=
  AdventCalendar.mk "2024-12-06" (Header.mk "Advent" "" "") (slice_at 0).
End Scenario.

(** Two products on offer from the same moment. *)
Module Tie.
Definition first : Product.t :=
  Sample.product 1 "Lamp" "2024-12-01T00:00:00Z" (Float64.of_Z 10) None.
Definition second : Product.t :=
  Sample.product 2 "Kettle" "2024-12-01T00:00:00Z" (Float64.of_Z 20) None.

Definition world : World := mkWorld [[first; second]] 0 0 (newCache GoTime.Minute) [].
Definition calendar : AdventCalendar.t :=
  AdventCalendar.mk "2024-12-01" (Header.mk "Advent" "" "") (slice_at 0).
End Tie.

(** A product given away: 0.00 instead of 10.00. *)
Definition giveaway : Product.t :=
  Sample.product 7 "Sticker" "2024-12-24T00:00:00Z" (Float64.of_Z 0) (Some (Float64.of_Z 10)).

(** A world with a feed stored at the first reading of the sample clock. *)
Module Stored.
Definition feed : AtomFeed.t :=
  AtomFeed.mk "http://www.w3.org/2005/Atom" "Advent - Galaxus" "" (AtomLink.mk "" "alternate" "")
              "" "2024-12-01T00:00:00Z" "urn:advent-calendar:Galaxus" None [].

Definition ttl : Z := 5 * GoTime.Minute.

Definition world : World :=
  mkWorld [] 1 1 (Cache.mk (Some feed) (Sample.clock 0) ttl) [].

(** The next reading of the clock is [d] nanoseconds after the first. *)
Definition clock_after (d : Z) (n : nat) : Time :=
  mkTime (instant (Sample.clock 0) + d) 0.
End Stored.

(** A session: the first request fails in transport, the later ones are
    answered with the sample calendar. *)
Module Session.
Definition upstream (n : nat) : Upstream.Response :=
  match n with
  | O => Upstream.TransportError "dial tcp: i/o timeout"
  | _ =>
      Upstream.HttpResponse 200 "[...]"
        (inr [Upstream.mkCalendar "2024-12-03"
                                  (Header.mk "Advent" "Daily deals" "//example.com/x.png")
                                  Sample.products])
  end.

Definition start : World := initial Sample.config.

(** The outcome of a call, the ids of a returned feed standing for it. *)
Definition outcome (r : option (result AtomFeed.t * World)) : option (result (list string)) :=
  match r with
  | Some (Ok feed, _) => Some (Ok (map AtomEntry.ID (AtomFeed.Entries feed)))
  | Some (Err err, _) => Some (Err err)
  | None => None
  end.

Definition call {lib : GoLib} : M (result AtomFeed.t) :=
  getFeed Sample.config Sample.clock upstream.

Definition after {lib : GoLib} (calls : nat) : option World :=
  Nat.iter calls (fun w => match w with
                           | Some w => option_map snd (call w)
                           | None => None
                           end) (Some start).
End Session.

(** A world whose cache has a feed and a duration of zero. *)
Module Disabled.
Definition world : World :=
  mkWorld [] 1 1 (Cache.mk (Some Stored.feed) (Sample.clock 0) 0) [].
End Disabled.

(** An API that answers every request with the sample calendar. *)
Module Answered.
Definition upstream (n : nat) : Upstream.Response := Session.upstream 1.
End Answered.

(** A product of which more were sold than there were. *)
Definition oversold : Product.t :=
  Product.mk (Product.Product Sample.early)
             (Offer.mk (Price.mk (Float64.of_Z 5) "CHF")
                       (SalesInformation.mk 50 53 "2024-12-01T00:00:00Z") None).

(** The sample calendar a day later, in another world: the same header
    and products, at another address. *)
Module Moved.
Definition world : World :=
  mkWorld [[]; Sample.products] 5 3 (newCache 0) ["Fetching fresh data from API"].

Definition calendar : AdventCalendar.t :=
  AdventCalendar.mk "2024-12-04" (Header.mk "Advent" "Daily deals" "//example.com/x.png")
                    (slice_at 1).

Definition clock (n : nat) : Time :=
  mkTime (instant (Sample.clock n) + 86400 * GoTime.Second) 0.
End Moved.

(** * Properties *)

(** ** One implementation of the interface

    Insertion sort, the RFC 3339 reader and printer, and the amd64
    conversion, which yields the smallest [int] for every unrepresentable
    value. *)

Lemma StronglySorted_snoc {A : Type} (P : A -> A -> Prop) l a :
  StronglySorted P l -> Forall (fun x => P x a) l -> StronglySorted P (l ++ [a]).
Proof.
  induction 1 as [|x l Hl IH Hx]; intros Ha; simpl.
  - repeat constructor.
  - inversion Ha; subst. constructor; [now apply IH|].
    apply Forall_app; split; [exact Hx|]. now repeat constructor.
Qed.

Section InsertionSortFacts.
Context {A : Type} (less : A -> A -> bool).

Lemma sift_perm x r : Permutation (x :: r) (sift less x r).
Proof.
  induction r as [|y r IH]; simpl; [reflexivity|].
  destruct (less x y); [|reflexivity].
  rewrite perm_swap. now constructor.
Qed.

Lemma insertion_loop_perm l : forall r,
  Permutation (rev l ++ r) (fold_left (fun r x => sift less x r) l r).
Proof.
  induction l as [|x l IH]; intros r; simpl; [reflexivity|].
  rewrite <- IH, <- app_assoc. simpl.
  apply Permutation_app_head, sift_perm.
Qed.

Lemma insertionSort_perm l : Permutation l (insertionSort less l).
Proof.
  unfold insertionSort.
  rewrite <- Permutation_rev, <- insertion_loop_perm, app_nil_r.
  apply Permutation_rev.
Qed.

Lemma sift_In x r z : In z (sift less x r) -> z = x \/ In z r.
Proof.
  intros H. apply Permutation_in with (l' := x :: r) in H.
  - destruct H; auto.
  - symmetry. apply sift_perm.
Qed.

Hypothesis swo : strict_weak_order less.

Lemma less_asym x y : less x y = true -> less y x = false.
Proof.
  intros Hxy. destruct (less y x) eqn:Hyx; [|reflexivity].
  pose proof (swo_trans less swo _ _ _ Hxy Hyx) as Hxx.
  now rewrite (swo_irrefl less swo) in Hxx.
Qed.

(** The prefix, read right to left, never rises. *)
Let falling : list A -> Prop := StronglySorted (fun x y => less x y = false).

Lemma sift_falling x r : falling r -> falling (sift less x r).
Proof.
  unfold falling. induction 1 as [|y r Hr IH Hy]; simpl.
  - repeat constructor.
  - destruct (less x y) eqn:Hxy.
    + constructor; [exact IH|].
      apply Forall_forall. intros z Hz.
      destruct (sift_In _ _ _ Hz) as [->|Hz'].
      * now apply less_asym.
      * rewrite Forall_forall in Hy. now apply Hy.
    + constructor; [now constructor|].
      constructor; [exact Hxy|].
      eapply Forall_impl; [|exact Hy].
      intros z Hyz. exact (swo_incomparable less swo _ _ _ Hxy Hyz).
Qed.

Lemma insertion_loop_falling l : forall r,
  falling r -> falling (fold_left (fun r x => sift less x r) l r).
Proof.
  induction l as [|x l IH]; intros r Hr; simpl; [exact Hr|].
  apply IH, sift_falling, Hr.
Qed.

Lemma falling_rev r : falling r -> sorted_by less (rev r).
Proof.
  unfold falling, sorted_by. induction 1 as [|y r Hr IH Hy]; simpl.
  - constructor.
  - apply StronglySorted_snoc; [exact IH|].
    apply Forall_rev. exact Hy.
Qed.

Lemma insertionSort_sorted l : sorted_by less (insertionSort less l).
Proof.
  apply falling_rev, insertion_loop_falling. constructor.
Qed.
End InsertionSortFacts.

Section InsertionSortNatural.
Context {A B : Type} (f : A -> B) (less : B -> B -> bool) (less' : A -> A -> bool).

Lemma sift_natural x r :
  (forall y, In y r -> less' x y = less (f x) (f y)) ->
  sift less (f x) (map f r) = map f (sift less' x r).
Proof.
  induction r as [|y r IH]; intros Hagree; simpl; [reflexivity|].
  rewrite <- (Hagree y) by now left.
  destruct (less' x y); simpl; [|reflexivity].
  rewrite IH; [reflexivity|]. intros z Hz. apply Hagree. now right.
Qed.

Lemma insertion_loop_natural l : forall r,
  (forall x y, In x (l ++ r) -> In y (l ++ r) -> less' x y = less (f x) (f y)) ->
  fold_left (fun r x => sift less x r) (map f l) (map f r)
  = map f (fold_left (fun r x => sift less' x r) l r).
Proof.
  induction l as [|x l IH]; intros r Hagree; simpl; [reflexivity|].
  rewrite sift_natural.
  - apply IH. intros y z Hy Hz. apply Hagree.
    + apply in_app_or in Hy. destruct Hy as [Hy|Hy]; simpl.
      * right. apply in_or_app. now left.
      * destruct (sift_In _ _ _ _ Hy) as [->|Hy']; [now left|].
        right. apply in_or_app. now right.
    + apply in_app_or in Hz. destruct Hz as [Hz|Hz]; simpl.
      * right. apply in_or_app. now left.
      * destruct (sift_In _ _ _ _ Hz) as [->|Hz']; [now left|].
        right. apply in_or_app. now right.
  - intros y Hy. apply Hagree; simpl; [now left|].
    right. apply in_or_app. now right.
Qed.

Lemma insertionSort_natural l :
  (forall x y, In x l -> In y l -> less' x y = less (f x) (f y)) ->
  insertionSort less (map f l) = map f (insertionSort less' l).
Proof.
  intros Hagree. unfold insertionSort. rewrite map_rev. f_equal.
  apply (insertion_loop_natural l []). now rewrite app_nil_r.
Qed.
End InsertionSortNatural.

#[export] Instance go_amd64 : GoLib :=
  {| sort_Slice := @insertionSort;
     sort_Slice_perm := @insertionSort_perm;
     sort_Slice_sorted := fun A less l swo => insertionSort_sorted less swo l;
     sort_Slice_natural := @insertionSort_natural;
     time_Parse := Rfc3339.parse;
     time_Format := Rfc3339.format;
     int_unrepresentable := fun _ => Int64.min_int |}.

(** ** Slices and the store *)

Lemma update_last {A} (h : list A) (x y : A) :
  update (h ++ [x]) (List.length h) y = Some (h ++ [y]).
Proof.
  induction h as [|z h IH]; simpl; [reflexivity|].
  now rewrite IH.
Qed.

Lemma nth_error_last {A} (h : list A) (x : A) :
  nth_error (h ++ [x]) (List.length h) = Some x.
Proof.
  rewrite nth_error_app2 by lia. now rewrite Nat.sub_diag.
Qed.

Lemma nth_error_grow {A} (h : list A) (x arr : A) a :
  nth_error h a = Some arr -> nth_error (h ++ [x]) a = Some arr.
Proof.
  intros H. rewrite nth_error_app1; [exact H|].
  apply nth_error_Some. congruence.
Qed.

Lemma load_holds w s arr : holds w s arr -> load s w = Some (arr, w).
Proof.
  destruct s as [|a]; simpl; intros H.
  - now subst.
  - unfold bind, gets, lift. now rewrite H.
Qed.

Lemma holds_load w s arr w' : load s w = Some (arr, w') -> holds w s arr /\ w' = w.
Proof.
  destruct s as [|a]; simpl.
  - unfold ret. intros [= <- <-]. now split.
  - unfold bind, gets, lift. destruct (nth_error (heap w) a); [|discriminate].
    unfold ret. intros [= <- <-]. now split.
Qed.

Lemma holds_grow w s arr h' x :
  holds w s arr -> holds (set_heap (heap w ++ [x]) h') s arr.
Proof.
  destruct s as [|a]; simpl; [trivial|]. apply nth_error_grow.
Qed.

Lemma firstn_skipn_fill {A} (src : list A) (z : A) :
  let n := Nat.min (List.length (repeat z (List.length src))) (List.length src) in
  firstn n src ++ skipn n (repeat z (List.length src)) = src.
Proof.
  simpl. rewrite repeat_length, Nat.min_id, firstn_all.
  rewrite skipn_all2 by (rewrite repeat_length; lia).
  apply app_nil_r.
Qed.

(** ** Runs of the store operations *)

Lemma bind_run {A B} (m : M A) (k : A -> M B) w a w' :
  m w = Some (a, w') -> bind m k w = k a w'.
Proof. unfold bind. now intros ->. Qed.

Lemma len_run w s arr : holds w s arr -> len s w = Some (List.length arr, w).
Proof.
  intros H. unfold len. now rewrite (bind_run _ _ _ _ _ (load_holds _ _ _ H)).
Qed.

Lemma make_run n w :
  make n w
  = Some (slice_at (List.length (heap w)), set_heap (heap w ++ [repeat Product.zero n]) w).
Proof. reflexivity. Qed.

Lemma load_fresh_run h arr w :
  load (slice_at (List.length h)) (set_heap (h ++ [arr]) w)
  = Some (arr, set_heap (h ++ [arr]) w).
Proof.
  apply load_holds. apply nth_error_last.
Qed.

Lemma store_fresh_run h arr arr' w :
  store (slice_at (List.length h)) arr' (set_heap (h ++ [arr]) w)
  = Some (tt, set_heap (h ++ [arr']) w).
Proof.
  unfold store, bind, gets, lift.
  change (heap (set_heap (h ++ [arr]) w)) with (h ++ [arr]).
  now rewrite update_last.
Qed.

(** Copying into a new array of the length of the source fills it. *)
Lemma copy_fresh_run w s src :
  holds w s src ->
  copy (slice_at (List.length (heap w))) s
       (set_heap (heap w ++ [repeat Product.zero (List.length src)]) w)
  = Some (List.length src, set_heap (heap w ++ [src]) w).
Proof.
  intros H. unfold copy.
  rewrite (bind_run _ _ _ _ _ (load_fresh_run _ _ _)).
  rewrite (bind_run _ _ _ _ _ (load_holds _ _ _ (holds_grow w _ _ w _ H))).
  rewrite firstn_skipn_fill.
  rewrite (bind_run _ _ _ _ _ (store_fresh_run _ _ _ _)).
  unfold ret. now rewrite repeat_length, Nat.min_id.
Qed.

Lemma sort_fresh_run {lib : GoLib} h arr less w :
  sort_Slice_in_place (slice_at (List.length h)) less (set_heap (h ++ [arr]) w)
  = Some (tt, set_heap (h ++ [sort_Slice less arr]) w).
Proof.
  unfold sort_Slice_in_place.
  rewrite (bind_run _ _ _ _ _ (load_fresh_run _ _ _)).
  apply store_fresh_run.
Qed.

(** ** The loop of the builder *)

Section BuilderFacts.
Context {lib : GoLib}.
Variable config : Config.t.

Lemma imageHTML_total p : exists image, imageHTML p = Some image.
Proof.
  unfold imageHTML. destruct (ProductInfo.Images (Product.Product p)) as [|i l]; simpl.
  - now eexists.
  - now eexists.
Qed.

Lemma entry_total p : exists e, entry config p = Some e.
Proof.
  unfold entry. destruct (imageHTML_total p) as [image ->]. now eexists.
Qed.

Lemma entry_ID p e : entry config p = Some e -> AtomEntry.ID e = stableID p.
Proof.
  unfold entry. destruct (imageHTML p); [|discriminate]. now intros [= <-].
Qed.

Lemma entry_Title p e : entry config p = Some e -> AtomEntry.Title e = title p.
Proof.
  unfold entry. destruct (imageHTML p); [|discriminate]. now intros [= <-].
Qed.

Lemma entry_Updated p e : entry config p = Some e -> AtomEntry.Updated e = updatedStr p.
Proof.
  unfold entry. destruct (imageHTML p); [|discriminate]. now intros [= <-].
Qed.

Lemma entry_Content p e :
  entry config p = Some e ->
  exists image,
    imageHTML p = Some image /\
    AtomEntry.Content e = AtomContent.mk "html" (content config p image).
Proof.
  unfold entry. destruct (imageHTML p) as [image|]; [|discriminate].
  intros [= <-]. now exists image.
Qed.

(** Each turn appends the entry of its product: the entries come out
    one per product, in the order of the products. *)
Lemma range_products_spec products : forall acc,
  exists entries,
    range_products config products acc = Some (acc ++ entries) /\
    Forall2 (fun p e => entry config p = Some e) products entries.
Proof.
  induction products as [|p rest IH]; intros acc; simpl.
  - exists []. rewrite app_nil_r. now split.
  - destruct (entry_total p) as [e He]. rewrite He.
    destruct (IH (acc ++ [e])) as (entries & Hrun & Hall).
    exists (e :: entries). rewrite Hrun, <- app_assoc. now split; [|constructor].
Qed.

Lemma fixIconURL_eq iconURL :
  fixIconURL iconURL
  = Some (if (2 <? String.length iconURL)%nat && String.eqb (substring 0 2 iconURL) "//"
          then ("https:" ++ iconURL)%string else iconURL).
Proof.
  unfold fixIconURL, prefix_to.
  destruct (2 <? String.length iconURL)%nat eqn:Hlen; cbn [andb]; [|reflexivity].
  apply Nat.ltb_lt in Hlen.
  replace (2 <=? String.length iconURL)%nat with true
    by (symmetry; apply Nat.leb_le; lia).
  reflexivity.
Qed.
End BuilderFacts.

(** ** What a run of the builder does *)

Section BuilderRun.
Context {lib : GoLib}.
Variable config : Config.t.
Variable clock : nat -> Time.

(** From a world in which the calendar's products can be read, the
    builder returns: it has placed one new array in the store, the
    sorted copy, read the clock once, and touched nothing else. *)
Lemma buildAtomFeed_run calendar w src :
  holds w (AdventCalendar.Products calendar) src ->
  exists entries iconURL,
    Forall2 (fun p e => entry config p = Some e) (sort_Slice later src) entries /\
    fixIconURL (Header.ImageURL (AdventCalendar.Header calendar)) = Some iconURL /\
    buildAtomFeed config clock calendar w
    = Some (feed_of config calendar entries iconURL (clock (ticks w)),
            set_ticks (S (ticks w)) (set_heap (heap w ++ [sort_Slice later src]) w)).
Proof.
  intros Hsrc.
  destruct (range_products_spec config (sort_Slice later src) []) as (entries & Hloop & Hall).
  exists entries. eexists. split; [exact Hall|]. split; [apply fixIconURL_eq|].
  unfold buildAtomFeed.
  rewrite (bind_run _ _ _ _ _ (len_run _ _ _ Hsrc)).
  rewrite (bind_run _ _ _ _ _ (make_run _ _)).
  rewrite (bind_run _ _ _ _ _ (copy_fresh_run _ _ _ Hsrc)).
  rewrite (bind_run _ _ _ _ _ (sort_fresh_run _ _ _ _)).
  rewrite (bind_run _ _ _ _ _ (load_fresh_run _ _ _)).
  rewrite Hloop, fixIconURL_eq.
  reflexivity.
Qed.
End BuilderRun.

(** ** The builder and its input (C9, C8) *)

Section BuilderClaims.
Context {lib : GoLib}.
Variable config : Config.t.
Variable clock : nat -> Time.

(** C9: building the feed leaves the calendar's product sequence as it
    was, order included: the builder sorts a copy. Every array that was
    in the store before the call holds the same products after it, and
    the cache is not touched. *)
Theorem buildAtomFeed_leaves_input calendar w src :
  holds w (AdventCalendar.Products calendar) src ->
  exists feed w',
    buildAtomFeed config clock calendar w = Some (feed, w') /\
    holds w' (AdventCalendar.Products calendar) src /\
    (forall a arr, nth_error (heap w) a = Some arr -> nth_error (heap w') a = Some arr) /\
    cache w' = cache w.
Proof.
  intros Hsrc.
  destruct (buildAtomFeed_run config clock calendar w src Hsrc)
    as (entries & iconURL & _ & _ & Hrun).
  eexists. eexists. split; [exact Hrun|]. split; [|split].
  - destruct (AdventCalendar.Products calendar); simpl in *; [exact Hsrc|].
    now apply nth_error_grow.
  - intros a arr Ha. simpl. now apply nth_error_grow.
  - reflexivity.
Qed.

(** C8: the builder returns a feed for every calendar, with one entry
    per product, none for a calendar without products; every product
    has an entry, whatever its fields; without an original price the
    discount is 0, a date that does not parse is the zero time, and
    without images or ratings the image tag and the rating line are
    empty. *)
Theorem buildAtomFeed_total calendar w src :
  holds w (AdventCalendar.Products calendar) src ->
  (exists feed w',
     buildAtomFeed config clock calendar w = Some (feed, w') /\
     List.length (AtomFeed.Entries feed) = List.length src /\
     (src = [] -> AtomFeed.Entries feed = [])) /\
  (forall p, exists e, entry config p = Some e) /\
  (forall p, Offer.InsteadOfPrice (Product.Offer p) = None -> discount p = 0) /\
  (forall p,
     time_Parse (SalesInformation.ValidFrom (Offer.SalesInformation (Product.Offer p))) = None ->
     validFromOf p = GoTime.zero /\ updatedStr p = time_Format GoTime.zero) /\
  (forall p, ProductInfo.Images (Product.Product p) = [] -> imageHTML p = Some ""%string) /\
  (forall p, ProductInfo.TotalRatings (Product.Product p) = 0 -> ratingInfo p = ""%string).
Proof.
  intros Hsrc. split; [|split; [|split; [|split; [|split]]]].
  - destruct (buildAtomFeed_run config clock calendar w src Hsrc)
      as (entries & iconURL & Hall & _ & Hrun).
    eexists. eexists. split; [exact Hrun|].
    assert (Hlen : List.length entries = List.length src).
    { rewrite <- (Forall2_length Hall).
      symmetry. apply Permutation_length, sort_Slice_perm. }
    split; [exact Hlen|].
    intros ->. simpl in *. now destruct entries.
  - apply entry_total.
  - intros p Hp. unfold discount. now rewrite Hp.
  - intros p Hp. unfold validFromOf, updatedStr, parseValidFrom. now rewrite Hp.
  - intros p Hp. unfold imageHTML. now rewrite Hp.
  - intros p Hp. unfold ratingInfo. now rewrite Hp.
Qed.
End BuilderClaims.

Lemma buildAtomFeed_leaves_input_witness :
  holds Sample.world (AdventCalendar.Products Sample.calendar) Sample.products /\
  exists feed w',
    buildAtomFeed Sample.config Sample.clock Sample.calendar Sample.world = Some (feed, w') /\
    holds w' (AdventCalendar.Products Sample.calendar) Sample.products /\
    (forall a arr, nth_error (heap Sample.world) a = Some arr -> nth_error (heap w') a = Some arr) /\
    cache w' = cache Sample.world.
Proof.
  split; [reflexivity|].
  apply (buildAtomFeed_leaves_input Sample.config Sample.clock). reflexivity.
Defined.

Lemma buildAtomFeed_total_witness :
  holds Sample.world (AdventCalendar.Products Sample.calendar) Sample.products /\
  exists feed w',
    buildAtomFeed Sample.config Sample.clock Sample.calendar Sample.world = Some (feed, w') /\
    List.length (AtomFeed.Entries feed) = List.length Sample.products.
Proof.
  split; [reflexivity|].
  destruct (buildAtomFeed_total Sample.config Sample.clock Sample.calendar Sample.world
              Sample.products eq_refl) as [(feed & w' & Hrun & Hlen & _) _].
  now exists feed, w'.
Defined.

(** The sorted copy is a new array; the calendar's array keeps its order. *)
Example sample_run_heap :
  option_map (fun r => map (map (fun p => ProductInfo.ProductID (Product.Product p)))
                           (heap (snd r)))
             (buildAtomFeed Sample.config Sample.clock Sample.calendar Sample.world)
  = Some [[1; 3; 2]; [2; 1; 3]].
Proof. vm_compute. reflexivity. Qed.

(** ** The icon (C6) *)

Lemma prefix_slashes url :
  String.eqb (substring 0 2 url) "//" = String.prefix "//" url.
Proof.
  destruct (String.eqb_spec (substring 0 2 url) "//") as [Heq|Hne].
  - symmetry. now apply String.prefix_correct.
  - destruct (String.prefix "//" url) eqn:Hpre; [|reflexivity].
    now apply String.prefix_correct in Hpre.
Qed.

Lemma prefix_split s1 : forall s2,
  String.prefix s1 s2 = true -> exists rest, s2 = (s1 ++ rest)%string.
Proof.
  induction s1 as [|a s1 IH]; intros s2 H.
  - now exists s2.
  - destruct s2 as [|b s2]; [discriminate|]. simpl in H.
    destruct (ascii_dec a b) as [<-|]; [|discriminate].
    destruct (IH _ H) as [rest ->]. now exists rest.
Qed.

(** The URL made of the two slashes alone begins with them, and is
    passed through. *)
Lemma icon_rewrite_two_slashes : ~ icon_rewrite_as_specified "//".
Proof.
  intros [Hrewrite _]. specialize (Hrewrite eq_refl). discriminate Hrewrite.
Qed.

Section IconClaim.
Context {lib : GoLib}.
Variable config : Config.t.
Variable clock : nat -> Time.

(** C6, amended: a header image URL of more than two bytes that begins
    with two slashes becomes the icon with "https:" put in front, so
    that it begins with "https://"; every other URL, the two slashes
    alone included, is the icon unchanged. *)
Theorem icon_rewrite calendar w src :
  holds w (AdventCalendar.Products calendar) src ->
  let url := Header.ImageURL (AdventCalendar.Header calendar) in
  exists feed w',
    buildAtomFeed config clock calendar w = Some (feed, w') /\
    AtomFeed.Icon feed
    = (if String.prefix "//" url && (2 <? String.length url)%nat
       then ("https:" ++ url)%string else url) /\
    (String.prefix "//" url = true -> (2 < String.length url)%nat ->
     String.prefix "https://" (AtomFeed.Icon feed) = true).
Proof.
  intros Hsrc url.
  destruct (buildAtomFeed_run config clock calendar w src Hsrc)
    as (entries & iconURL & _ & Hicon & Hrun).
  exists (feed_of config calendar entries iconURL (clock (ticks w))). eexists.
  split; [exact Hrun|]. simpl AtomFeed.Icon.
  rewrite fixIconURL_eq in Hicon. injection Hicon as <-.
  fold url. rewrite prefix_slashes, andb_comm.
  split; [reflexivity|].
  intros Hpre Hlen. apply Nat.ltb_lt in Hlen. rewrite Hpre, Hlen. simpl andb.
  cbv iota. destruct (prefix_split _ _ Hpre) as [rest ->].
  apply String.prefix_correct. now destruct rest.
Qed.
End IconClaim.

Lemma icon_rewrite_witness :
  holds Sample.world (AdventCalendar.Products Sample.calendar) Sample.products /\
  exists feed w',
    buildAtomFeed Sample.config Sample.clock Sample.calendar Sample.world = Some (feed, w') /\
    AtomFeed.Icon feed = "https://example.com/x.png".
Proof.
  split; [reflexivity|].
  destruct (icon_rewrite Sample.config Sample.clock Sample.calendar Sample.world
              Sample.products eq_refl) as (feed & w' & Hrun & Hicon & _).
  now exists feed, w'.
Defined.

Example icon_already_https : fixIconURL "https://already.com/y.png" = Some "https://already.com/y.png".
Proof. reflexivity. Qed.

(** ** Stable entry ids (C5) *)

Lemma Forall2_combine {A B} (R : A -> B -> Prop) l1 l2 :
  Forall2 R l1 l2 ->
  map fst (combine l1 l2) = l1 /\ map snd (combine l1 l2) = l2 /\
  Forall (fun x => R (fst x) (snd x)) (combine l1 l2).
Proof.
  induction 1 as [|a b l1 l2 Hab _ (IH1 & IH2 & IH3)]; simpl.
  - repeat split; constructor.
  - rewrite IH1, IH2. repeat split. now constructor.
Qed.

Section StableIds.
Context {lib : GoLib}.

Lemma entries_ids config products entries :
  Forall2 (fun p e => entry config p = Some e) products entries ->
  map AtomEntry.ID entries = map stableID products.
Proof.
  induction 1 as [|p e products entries He _ IH]; simpl; [reflexivity|].
  now rewrite IH, (entry_ID config p e He).
Qed.

Lemma alike_ids l1 l2 :
  Forall2 differ_only_in_price_stock_rating l1 l2 -> map stableID l1 = map stableID l2.
Proof.
  induction 1 as [|p q l1 l2 Hpq _ IH]; simpl; [reflexivity|].
  rewrite IH. unfold stableID. now rewrite (proj1 (proj2 Hpq)).
Qed.

(** Products that differ only in price, stock and rating are sorted
    alike. *)
Lemma sorted_alike src1 src2 :
  Forall2 differ_only_in_price_stock_rating src1 src2 ->
  Forall2 differ_only_in_price_stock_rating (sort_Slice later src1) (sort_Slice later src2).
Proof.
  intros H. destruct (Forall2_combine _ _ _ H) as (H1 & H2 & Hall).
  set (l := combine src1 src2) in *.
  set (less' := fun x y : Product.t * Product.t => later (fst x) (fst y)).
  assert (E1 : sort_Slice later src1 = map fst (sort_Slice less' l)).
  { rewrite <- H1. now apply sort_Slice_natural. }
  assert (E2 : sort_Slice later src2 = map snd (sort_Slice less' l)).
  { rewrite <- H2. apply sort_Slice_natural. intros x y Hx Hy.
    rewrite Forall_forall in Hall.
    pose proof (Hall x Hx) as Rx. pose proof (Hall y Hy) as Ry.
    unfold differ_only_in_price_stock_rating in Rx, Ry.
    unfold less', later. now rewrite (proj2 (proj2 (proj2 (proj2 (proj2 (proj2 (proj2 Rx))))))),
      (proj2 (proj2 (proj2 (proj2 (proj2 (proj2 (proj2 Ry))))))). }
  rewrite E1, E2. clear E1 E2.
  assert (Hsorted : Forall (fun x => differ_only_in_price_stock_rating (fst x) (snd x))
                           (sort_Slice less' l)).
  { rewrite Forall_forall in *. intros x Hx. apply Hall.
    eapply Permutation_in; [symmetry; apply sort_Slice_perm | exact Hx]. }
  induction Hsorted as [|x rest Hx _ IH]; simpl; constructor; assumption.
Qed.

(** C5: the id of a product's entry is "urn:advent:" followed by the
    numeric product id in decimal, whatever the other fields, the
    store, the clock and the state of the world are; entries of
    products with the same numeric id have the same id; and the feeds
    built from two snapshots that differ only in price, stock or rating
    fields list the same ids, position by position. *)
Theorem stable_entry_ids :
  (forall config p e,
     entry config p = Some e ->
     AtomEntry.ID e = ("urn:advent:" ++ Fmt.d (ProductInfo.ProductID (Product.Product p)))%string) /\
  (forall config1 config2 p q e1 e2,
     entry config1 p = Some e1 -> entry config2 q = Some e2 ->
     ProductInfo.ProductID (Product.Product p) = ProductInfo.ProductID (Product.Product q) ->
     AtomEntry.ID e1 = AtomEntry.ID e2) /\
  (forall config1 clock1 calendar1 w1 src1 config2 clock2 calendar2 w2 src2,
     holds w1 (AdventCalendar.Products calendar1) src1 ->
     holds w2 (AdventCalendar.Products calendar2) src2 ->
     Forall2 differ_only_in_price_stock_rating src1 src2 ->
     exists feed1 w1' feed2 w2',
       buildAtomFeed config1 clock1 calendar1 w1 = Some (feed1, w1') /\
       buildAtomFeed config2 clock2 calendar2 w2 = Some (feed2, w2') /\
       map AtomEntry.ID (AtomFeed.Entries feed1) = map AtomEntry.ID (AtomFeed.Entries feed2)).
Proof.
  split; [|split].
  - intros config p e He. now rewrite (entry_ID config p e He).
  - intros config1 config2 p q e1 e2 H1 H2 Hid.
    rewrite (entry_ID _ _ _ H1), (entry_ID _ _ _ H2). unfold stableID. now rewrite Hid.
  - intros config1 clock1 calendar1 w1 src1 config2 clock2 calendar2 w2 src2 Hsrc1 Hsrc2 Hdiff.
    destruct (buildAtomFeed_run config1 clock1 calendar1 w1 src1 Hsrc1)
      as (entries1 & icon1 & Hall1 & _ & Hrun1).
    destruct (buildAtomFeed_run config2 clock2 calendar2 w2 src2 Hsrc2)
      as (entries2 & icon2 & Hall2 & _ & Hrun2).
    do 4 eexists. split; [exact Hrun1|]. split; [exact Hrun2|]. simpl.
    rewrite (entries_ids _ _ _ Hall1), (entries_ids _ _ _ Hall2).
    apply alike_ids, sorted_alike, Hdiff.
Qed.
End StableIds.

Lemma stable_entry_ids_witness :
  holds Sample.world (AdventCalendar.Products Sample.calendar) Sample.products /\
  holds Later.world (AdventCalendar.Products Later.calendar) Later.products /\
  Forall2 differ_only_in_price_stock_rating Sample.products Later.products /\
  exists feed1 w1' feed2 w2',
    buildAtomFeed Sample.config Sample.clock Sample.calendar Sample.world = Some (feed1, w1') /\
    buildAtomFeed (Config.mk digitec "curl" 9000 GoTime.Minute) (fun _ => GoTime.zero)
                  Later.calendar Later.world = Some (feed2, w2') /\
    map AtomEntry.ID (AtomFeed.Entries feed1) = map AtomEntry.ID (AtomFeed.Entries feed2).
Proof.
  assert (Hdiff : Forall2 differ_only_in_price_stock_rating Sample.products Later.products).
  { repeat constructor. }
  split; [reflexivity|]. split; [reflexivity|]. split; [exact Hdiff|].
  apply (proj2 (proj2 stable_entry_ids) _ _ _ _ Sample.products _ _ _ _ Later.products);
    [reflexivity | reflexivity | exact Hdiff].
Defined.

Example sample_ids :
  option_map (fun r => map AtomEntry.ID (AtomFeed.Entries (fst r)))
             (buildAtomFeed Sample.config Sample.clock Sample.calendar Sample.world)
  = Some ["urn:advent:2"; "urn:advent:1"; "urn:advent:3"].
Proof. vm_compute. reflexivity. Qed.

(** ** The one-product scenario (C7) *)

Lemma string_app_assoc (a b c : string) : ((a ++ b) ++ c = a ++ (b ++ c))%string.
Proof.
  induction a as [|x a IH]; simpl; [reflexivity|]. now rewrite IH.
Qed.

Section ScenarioClaim.
Context {lib : GoLib}.
Variable config : Config.t.
Variable clock : nat -> Time.

Lemma sort_Slice_singleton {A} (less : A -> A -> bool) (x : A) :
  sort_Slice less [x] = [x].
Proof.
  apply Permutation_length_1_inv, sort_Slice_perm.
Qed.

(** C7: for the calendar whose one product is the Acme Widget at 8.00
    CHF instead of 10.00, 20 of 50 sold, the feed has one entry; its
    title starts with "[20% off] Acme: Widget", its stock line is
    "30/50 remaining", its id is "urn:advent:" followed by the numeric
    product id, and its timestamp is the valid-from time when that
    parses. *)
Theorem widget_entry calendar w id productID nameProperties productTypeName
    averageRating totalRatings images validFrom :
  let p := Scenario.widget id productID nameProperties productTypeName
                           averageRating totalRatings images validFrom in
  holds w (AdventCalendar.Products calendar) [p] ->
  exists feed w' e,
    buildAtomFeed config clock calendar w = Some (feed, w') /\
    AtomFeed.Entries feed = [e] /\
    String.prefix "[20% off] Acme: Widget" (AtomEntry.Title e) = true /\
    stockInfo p = "30/50 remaining" /\
    (exists before after,
       AtomContent.Content (AtomEntry.Content e)
       = (before ++ "<p><strong>Stock:</strong> " ++ stockInfo p ++ "</p>" ++ after)%string) /\
    AtomEntry.ID e = ("urn:advent:" ++ Fmt.d productID)%string /\
    (forall t, time_Parse validFrom = Some t -> AtomEntry.Updated e = time_Format t).
Proof.
  intros p Hsrc.
  destruct (buildAtomFeed_run config clock calendar w [p] Hsrc)
    as (entries & iconURL & Hall & _ & Hrun).
  rewrite sort_Slice_singleton in Hall, Hrun.
  inversion Hall as [|p' e l l' He Hnil]; subst. inversion Hnil; subst.
  exists (feed_of config calendar [e] iconURL (clock (ticks w))). eexists. exists e.
  split; [exact Hrun|]. split; [reflexivity|].
  split; [|split; [reflexivity|split; [|split]]].
  - rewrite (entry_Title _ _ _ He).
    assert (Hd : discount p = 20) by reflexivity.
    unfold title. rewrite Hd. simpl.
    destruct (String.eqb nameProperties ""); simpl;
      repeat (destruct (ascii_dec _ _) as [_|Hne]; [|now elim Hne]); reflexivity.
  - destruct (entry_Content _ _ _ He) as (image & _ & ->). simpl AtomContent.Content.
    exists (image ++ "<p><strong>Brand:</strong> " ++ "Acme" ++ "</p>" ++ nl
            ++ "<p><strong>Type:</strong> " ++ productTypeName ++ "</p>" ++ nl
            ++ "<p><strong>Price:</strong> " ++ priceInfo p ++ "</p>" ++ nl)%string.
    exists ((if negb (String.eqb (ratingInfo p) "")
             then nl ++ "<p><strong>Rating:</strong> " ++ ratingInfo p ++ "</p>"
             else "")
            ++ "<p><a href=" ++ dq ++ productURL config p ++ dq ++ ">View on "
            ++ StoreConfig.Name (Config.Store config) ++ "</a></p>")%string.
    unfold content.
    destruct (negb (String.eqb (ratingInfo p) ""));
      repeat rewrite string_app_assoc; reflexivity.
  - now rewrite (entry_ID _ _ _ He).
  - intros t Ht. rewrite (entry_Updated _ _ _ He).
    unfold updatedStr, parseValidFrom. simpl. now rewrite Ht.
Qed.
End ScenarioClaim.

Lemma widget_entry_witness :
  holds Scenario.world (AdventCalendar.Products Scenario.calendar) [Scenario.product] /\
  exists feed w' e,
    buildAtomFeed Sample.config Sample.clock Scenario.calendar Scenario.world = Some (feed, w') /\
    AtomFeed.Entries feed = [e] /\
    String.prefix "[20% off] Acme: Widget" (AtomEntry.Title e) = true /\
    stockInfo Scenario.product = "30/50 remaining" /\
    AtomEntry.ID e = "urn:advent:4711".
Proof.
  split; [reflexivity|].
  destruct (widget_entry Sample.config Sample.clock Scenario.calendar Scenario.world
              "a1b2" 4711 "black" "Gadget" (Float64.of_decimal 45 1) 12
              [Image.mk "//img.example.com/widget.png"] Scenario.validFrom eq_refl)
    as (feed & w' & e & Hrun & Hentries & Htitle & Hstock & _ & Hid & _).
  exists feed, w', e. repeat split; assumption.
Defined.

Example scenario_entry :
  option_map (fun r => map (fun e => (AtomEntry.Title e, AtomEntry.ID e, AtomEntry.Updated e))
                           (AtomFeed.Entries (fst r)))
             (buildAtomFeed Sample.config Sample.clock Scenario.calendar Scenario.world)
  = Some [("[20% off] Acme: Widget - black", "urn:advent:4711", "2024-12-06T08:00:00+01:00")].
Proof. vm_compute. reflexivity. Qed.

(** ** The order of the entries (C2) *)

Lemma StronglySorted_nth {A} (R : A -> A -> Prop) l :
  StronglySorted R l ->
  forall i j x y, (i < j)%nat -> nth_error l i = Some x -> nth_error l j = Some y -> R x y.
Proof.
  induction 1 as [|a l Hl IH Ha]; intros i j x y Hij Hi Hj.
  - now destruct i.
  - destruct j as [|j]; [lia|]. simpl in Hj. destruct i as [|i]; simpl in Hi.
    + injection Hi as <-. rewrite Forall_forall in Ha. apply Ha.
      eapply nth_error_In, Hj.
    + apply (IH i j); [lia | assumption | assumption].
Qed.

Section Order.
Context {lib : GoLib}.

Lemma later_strict_weak_order : strict_weak_order later.
Proof.
  unfold later, GoTime.After. constructor.
  - intros x. apply Z.ltb_irrefl.
  - intros x y z Hxy Hyz. apply Z.ltb_lt in Hxy, Hyz. apply Z.ltb_lt. lia.
  - intros x y z Hxy Hyz. apply Z.ltb_ge in Hxy, Hyz. apply Z.ltb_ge. lia.
Qed.

Variable config : Config.t.
Variable clock : nat -> Time.

(** C2, amended: the entries are those of the products, one each, in an
    order in which the valid-from time never rises: an entry that comes
    before another has a valid-from time at least as late, and of two
    entries with different valid-from times the later one comes first.
    The order of entries with equal times is left open. A date that
    does not parse counts as the zero time, so its entry comes after
    every entry with a later time. *)
Theorem entries_descending calendar w src :
  holds w (AdventCalendar.Products calendar) src ->
  exists feed w' sorted,
    buildAtomFeed config clock calendar w = Some (feed, w') /\
    Permutation src sorted /\
    Forall2 (fun p e => entry config p = Some e) sorted (AtomFeed.Entries feed) /\
    (forall i j pi pj,
       nth_error sorted i = Some pi -> nth_error sorted j = Some pj ->
       ((i < j)%nat -> instant (validFromOf pj) <= instant (validFromOf pi)) /\
       (instant (validFromOf pj) < instant (validFromOf pi) -> (i < j)%nat)) /\
    (forall p, ~ parseable p -> validFromOf p = GoTime.zero) /\
    (forall i j pi pj,
       nth_error sorted i = Some pi -> nth_error sorted j = Some pj ->
       ~ parseable pj -> 0 < instant (validFromOf pi) -> (i < j)%nat).
Proof.
  intros Hsrc.
  destruct (buildAtomFeed_run config clock calendar w src Hsrc)
    as (entries & iconURL & Hall & _ & Hrun).
  exists (feed_of config calendar entries iconURL (clock (ticks w))). eexists.
  exists (sort_Slice later src).
  assert (Hzero : forall p, ~ parseable p -> validFromOf p = GoTime.zero).
  { intros p Hp. unfold validFromOf, parseValidFrom.
    destruct (time_Parse _) as [t|] eqn:Ht; [|reflexivity].
    elim Hp. now exists t. }
  assert (Hdesc : forall i j pi pj,
    nth_error (sort_Slice later src) i = Some pi ->
    nth_error (sort_Slice later src) j = Some pj ->
    (i < j)%nat -> instant (validFromOf pj) <= instant (validFromOf pi)).
  { intros i j pi pj Hi Hj Hij.
    pose proof (StronglySorted_nth _ _
                  (sort_Slice_sorted _ later src later_strict_weak_order)
                  i j pi pj Hij Hi Hj) as Hno.
    unfold later, GoTime.After in Hno. apply Z.ltb_ge in Hno. exact Hno. }
  assert (Hstrict : forall i j pi pj,
    nth_error (sort_Slice later src) i = Some pi ->
    nth_error (sort_Slice later src) j = Some pj ->
    instant (validFromOf pj) < instant (validFromOf pi) -> (i < j)%nat).
  { intros i j pi pj Hi Hj Hlt.
    destruct (Nat.lt_trichotomy i j) as [Hij|[Hij|Hij]]; [exact Hij| |].
    - subst j. rewrite Hi in Hj. injection Hj as <-. lia.
    - pose proof (Hdesc j i pj pi Hj Hi Hij). lia. }
  split; [exact Hrun|]. split; [apply sort_Slice_perm|]. split; [exact Hall|].
  split; [|split; [exact Hzero|]].
  - intros i j pi pj Hi Hj. split; [now apply Hdesc | now apply Hstrict].
  - intros i j pi pj Hi Hj Hpj Hpos. apply (Hstrict i j pi pj Hi Hj).
    now rewrite (Hzero pj Hpj).
Qed.
End Order.

(** With two products valid from the same moment, no order of the two
    entries is as the specification words it: each has a valid-from time
    at least as late as the other, and only one can come first. *)
Lemma entries_of_a_tie :
  ~ exists feed w' sorted,
      buildAtomFeed Sample.config Sample.clock Tie.calendar Tie.world = Some (feed, w') /\
      Permutation [Tie.first; Tie.second] sorted /\
      Forall2 (fun p e => entry Sample.config p = Some e) sorted (AtomFeed.Entries feed) /\
      descending_iff sorted.
Proof.
  intros (feed & w' & sorted & _ & Hperm & _ & Hiff).
  assert (P1 : parseable Tie.first) by (eexists; reflexivity).
  assert (P2 : parseable Tie.second) by (eexists; reflexivity).
  apply Permutation_length_2_inv in Hperm. destruct Hperm as [-> | ->].
  - assert (H : (1 < 0)%nat);
      [apply (Hiff 1%nat 0%nat Tie.second Tie.first); auto; vm_compute; discriminate | lia].
  - assert (H : (1 < 0)%nat);
      [apply (Hiff 1%nat 0%nat Tie.first Tie.second); auto; vm_compute; discriminate | lia].
Qed.

Lemma entries_descending_witness :
  holds Sample.world (AdventCalendar.Products Sample.calendar) Sample.products /\
  exists feed w' sorted,
    buildAtomFeed Sample.config Sample.clock Sample.calendar Sample.world = Some (feed, w') /\
    Permutation Sample.products sorted /\
    Forall2 (fun p e => entry Sample.config p = Some e) sorted (AtomFeed.Entries feed).
Proof.
  split; [reflexivity|].
  destruct (entries_descending Sample.config Sample.clock Sample.calendar Sample.world
              Sample.products eq_refl) as (feed & w' & sorted & Hrun & Hperm & Hall & _).
  now exists feed, w', sorted.
Defined.

Example tie_order :
  option_map (fun r => map AtomEntry.ID (AtomFeed.Entries (fst r)))
             (buildAtomFeed Sample.config Sample.clock Tie.calendar Tie.world)
  = Some ["urn:advent:1"; "urn:advent:2"].
Proof. vm_compute. reflexivity. Qed.

(** ** The freshness cache (C3, C10) *)

Lemma saturate_id d :
  Int64.min_int <= d <= Int64.max_int -> GoTime.saturate d = d.
Proof.
  intros H. unfold GoTime.saturate.
  destruct (Z.ltb_spec d Int64.min_int); [lia|].
  destruct (Z.ltb_spec Int64.max_int d); [lia | reflexivity].
Qed.

Lemma saturate_ge d t :
  t <= Int64.max_int -> t <= d -> t <= GoTime.saturate d.
Proof.
  intros Ht Hd. unfold GoTime.saturate.
  destruct (Z.ltb_spec d Int64.min_int); [lia|].
  destruct (Z.ltb_spec Int64.max_int d); lia.
Qed.

Section CacheClaims.
Variable clock : nat -> Time.

(** What a call of [Cache.Get] comes to: with a feed stored it reads
    the clock once and compares the age, saturated, with the duration;
    with none stored it answers at once. It changes nothing else. *)
Lemma Cache_Get_run w :
  Cache_Get clock w
  = match Cache.data (cache w) with
    | Some feed =>
        Some (if GoTime.Sub (clock (ticks w)) (Cache.fetchedAt (cache w))
                 <? Cache.duration (cache w)
              then Some feed else None,
              set_ticks (S (ticks w)) w)
    | None => Some (None, w)
    end.
Proof.
  unfold Cache_Get, bind, gets. destruct (Cache.data (cache w)) as [feed|]; [|reflexivity].
  unfold time_Since, time_Now, bind, gets, modify, ret.
  now destruct (_ <? _).
Qed.

Lemma Cache_Get_frame w r w' :
  Cache_Get clock w = Some (r, w') ->
  cache w' = cache w /\ heap w' = heap w /\ fetches w' = fetches w /\ logged w' = logged w.
Proof.
  rewrite Cache_Get_run. destruct (Cache.data (cache w)); intros [= <- <-]; now repeat split.
Qed.

(** C3: with a feed stored at [fetchedAt] and a duration [ttl], a call
    of [Cache.Get] that reads the clock at [fetchedAt + ttl - eps]
    returns the stored feed, and one that reads it at
    [fetchedAt + ttl + eps] returns nothing, for every [eps] between 0
    and [ttl]; no call changes what is stored. *)
Theorem Cache_Get_window w feed eps :
  Cache.data (cache w) = Some feed ->
  Cache.duration (cache w) <= Int64.max_int ->
  0 < eps < Cache.duration (cache w) ->
  let fetchedAt := instant (Cache.fetchedAt (cache w)) in
  let ttl := Cache.duration (cache w) in
  (instant (clock (ticks w)) = fetchedAt + ttl - eps ->
   Cache_Get clock w = Some (Some feed, set_ticks (S (ticks w)) w)) /\
  (instant (clock (ticks w)) = fetchedAt + ttl + eps ->
   Cache_Get clock w = Some (None, set_ticks (S (ticks w)) w)) /\
  (forall r w', Cache_Get clock w = Some (r, w') -> cache w' = cache w).
Proof.
  intros Hdata Hmax Heps fetchedAt ttl. subst fetchedAt ttl. split; [|split].
  - intros Hnow. rewrite Cache_Get_run, Hdata. unfold GoTime.Sub. rewrite Hnow.
    rewrite saturate_id by (unfold Int64.min_int, Int64.max_int in *; lia).
    destruct (Z.ltb_spec (instant (Cache.fetchedAt (cache w)) + Cache.duration (cache w) - eps
                          - instant (Cache.fetchedAt (cache w))) (Cache.duration (cache w)));
      [reflexivity | lia].
  - intros Hnow. rewrite Cache_Get_run, Hdata. unfold GoTime.Sub. rewrite Hnow.
    pose proof (saturate_ge (instant (Cache.fetchedAt (cache w)) + Cache.duration (cache w) + eps
                             - instant (Cache.fetchedAt (cache w)))
                            (Cache.duration (cache w)) Hmax ltac:(lia)) as Hsat.
    destruct (Z.ltb_spec (GoTime.saturate
                            (instant (Cache.fetchedAt (cache w)) + Cache.duration (cache w) + eps
                             - instant (Cache.fetchedAt (cache w))))
                         (Cache.duration (cache w))); [lia | reflexivity].
  - intros r w' Hrun. now apply Cache_Get_frame in Hrun.
Qed.

(** C10: on the cache as [main] creates it, with nothing stored,
    [Cache.Get] returns nothing, whatever the duration, the clock and
    the rest of the world are; it does not even read the clock. *)
Theorem Cache_Get_fresh duration h t f l :
  Cache_Get clock (mkWorld h t f (newCache duration) l)
  = Some (None, mkWorld h t f (newCache duration) l).
Proof. reflexivity. Qed.
End CacheClaims.

Lemma Cache_Get_window_witness :
  Cache.data (cache Stored.world) = Some Stored.feed /\
  Cache.duration (cache Stored.world) <= Int64.max_int /\
  0 < GoTime.Second < Cache.duration (cache Stored.world) /\
  Cache_Get (Stored.clock_after (Stored.ttl - GoTime.Second)) Stored.world
  = Some (Some Stored.feed, set_ticks 2 Stored.world) /\
  Cache_Get (Stored.clock_after (Stored.ttl + GoTime.Second)) Stored.world
  = Some (None, set_ticks 2 Stored.world).
Proof.
  assert (Hmax : Cache.duration (cache Stored.world) <= Int64.max_int) by (vm_compute; discriminate).
  assert (Heps : 0 < GoTime.Second < Cache.duration (cache Stored.world)) by (vm_compute; split; reflexivity).
  split; [reflexivity|]. split; [exact Hmax|]. split; [exact Heps|]. split.
  - apply (proj1 (Cache_Get_window (Stored.clock_after (Stored.ttl - GoTime.Second))
                    Stored.world Stored.feed GoTime.Second eq_refl Hmax Heps)).
    vm_compute. reflexivity.
  - apply (proj1 (proj2 (Cache_Get_window (Stored.clock_after (Stored.ttl + GoTime.Second))
                    Stored.world Stored.feed GoTime.Second eq_refl Hmax Heps))).
    vm_compute. reflexivity.
Defined.

(** At the very end of the window the feed is stale. *)
Example Cache_Get_at_ttl :
  Cache_Get (Stored.clock_after Stored.ttl) Stored.world = Some (None, set_ticks 2 Stored.world).
Proof. vm_compute. reflexivity. Qed.

(** ** The feed service (C4) *)

Section ServiceClaims.
Context {lib : GoLib}.
Variable config : Config.t.
Variable clock : nat -> Time.
Variable upstream : nat -> Upstream.Response.

(** The client sends one request, and neither reads the clock nor
    touches the cache; a calendar it returns has its products in the
    store. *)
Lemma fetchAdventCalendar_run w :
  exists r w',
    fetchAdventCalendar upstream w = Some (r, w') /\
    cache w' = cache w /\ ticks w' = ticks w /\ fetches w' = S (fetches w) /\
    logged w' = logged w /\
    (forall calendar, r = Ok calendar ->
       exists src, holds w' (AdventCalendar.Products calendar) src).
Proof.
  unfold fetchAdventCalendar, bind, gets, modify.
  destruct (upstream (fetches w)) as [err | status body [err | [|c rest]]].
  - do 2 eexists. split; [reflexivity|]. repeat split. discriminate.
  - destruct (negb (status =? 200));
      do 2 eexists; (split; [reflexivity|]); repeat split; discriminate.
  - destruct (negb (status =? 200));
      do 2 eexists; (split; [reflexivity|]); repeat split; discriminate.
  - destruct (negb (status =? 200)).
    + do 2 eexists. split; [reflexivity|]. repeat split. discriminate.
    + unfold alloc. destruct (Upstream.Products c) as [|p ps] eqn:Hps.
      * do 2 eexists. split; [reflexivity|]. repeat split.
        intros calendar [= <-]. now exists [].
      * do 2 eexists. split; [reflexivity|]. repeat split.
        intros calendar [= <-]. exists (p :: ps). simpl. apply nth_error_last.
Qed.

(** C4: a call of [getFeed] returns. When the cache has a fresh feed,
    that feed is returned, no request goes upstream, and the cache and
    the store are as before. When it has none and the client fails,
    the client's error is returned as it is, and the cache is as
    before. When the client succeeds, the feed built from its calendar
    is stored in the cache, with the time of storing, and returned. *)
Theorem getFeed_cases w :
  (exists r w', getFeed config clock upstream w = Some (r, w')) /\
  (forall feed w1,
     Cache_Get clock w = Some (Some feed, w1) ->
     exists w',
       getFeed config clock upstream w = Some (Ok feed, w') /\
       cache w' = cache w /\ fetches w' = fetches w /\ heap w' = heap w) /\
  (forall w1 err w2,
     Cache_Get clock w = Some (None, w1) ->
     fetchAdventCalendar upstream (asking w1) = Some (Err err, w2) ->
     getFeed config clock upstream w = Some (Err err, w2) /\ cache w2 = cache w) /\
  (forall w1 calendar w2,
     Cache_Get clock w = Some (None, w1) ->
     fetchAdventCalendar upstream (asking w1) = Some (Ok calendar, w2) ->
     exists feed w3 w',
       buildAtomFeed config clock calendar w2 = Some (feed, w3) /\
       getFeed config clock upstream w = Some (Ok feed, w') /\
       cache w' = Cache.mk (Some feed) (clock (ticks w3)) (Cache.duration (cache w))).
Proof.
  assert (Hhit : forall feed w1,
    Cache_Get clock w = Some (Some feed, w1) ->
    exists w',
      getFeed config clock upstream w = Some (Ok feed, w') /\
      cache w' = cache w /\ fetches w' = fetches w /\ heap w' = heap w).
  { intros feed w1 Hget. unfold getFeed. rewrite (bind_run _ _ _ _ _ Hget).
    destruct (Cache_Get_frame _ _ _ _ Hget) as (Hc & Hh & Hf & _).
    eexists. split; [reflexivity|]. simpl. auto. }
  assert (Hfail : forall w1 err w2,
    Cache_Get clock w = Some (None, w1) ->
    fetchAdventCalendar upstream (asking w1) = Some (Err err, w2) ->
    getFeed config clock upstream w = Some (Err err, w2) /\ cache w2 = cache w).
  { intros w1 err w2 Hget Hfetch. unfold getFeed. rewrite (bind_run _ _ _ _ _ Hget).
    rewrite (bind_run _ _ _ tt (asking w1)) by reflexivity.
    rewrite (bind_run _ _ _ _ _ Hfetch). split; [reflexivity|].
    destruct (fetchAdventCalendar_run (asking w1)) as (r & w' & Hrun & Hc & _).
    rewrite Hfetch in Hrun. injection Hrun as <- <-.
    rewrite Hc. simpl. now apply Cache_Get_frame in Hget. }
  assert (Hok : forall w1 calendar w2,
    Cache_Get clock w = Some (None, w1) ->
    fetchAdventCalendar upstream (asking w1) = Some (Ok calendar, w2) ->
    exists feed w3 w',
      buildAtomFeed config clock calendar w2 = Some (feed, w3) /\
      getFeed config clock upstream w = Some (Ok feed, w') /\
      cache w' = Cache.mk (Some feed) (clock (ticks w3)) (Cache.duration (cache w))).
  { intros w1 calendar w2 Hget Hfetch.
    destruct (fetchAdventCalendar_run (asking w1)) as (r & w' & Hrun & Hc & _ & _ & _ & Hsrc).
    rewrite Hfetch in Hrun. injection Hrun as <- <-.
    destruct (Hsrc calendar eq_refl) as [src Hholds].
    destruct (buildAtomFeed_run config clock calendar w2 src Hholds)
      as (entries & iconURL & _ & _ & Hbuild).
    do 3 eexists. split; [exact Hbuild|].
    unfold getFeed. rewrite (bind_run _ _ _ _ _ Hget).
    rewrite (bind_run _ _ _ tt (asking w1)) by reflexivity.
    rewrite (bind_run _ _ _ _ _ Hfetch), (bind_run _ _ _ _ _ Hbuild).
    split; [reflexivity|]. simpl. rewrite Hc. simpl.
    apply Cache_Get_frame in Hget. now rewrite (proj1 Hget). }
  split; [|auto].
  destruct (Cache_Get clock w) as [[[feed|] w1]|] eqn:Hget.
  - destruct (Hhit feed w1 eq_refl) as (w' & Hrun & _). eauto.
  - destruct (fetchAdventCalendar_run (asking w1)) as ([calendar|err] & w2 & Hfetch & _).
    + destruct (Hok w1 calendar w2 eq_refl Hfetch) as (feed & w3 & w' & _ & Hrun & _). eauto.
    + destruct (Hfail w1 err w2 eq_refl Hfetch) as (Hrun & _). eauto.
  - rewrite Cache_Get_run in Hget. now destruct (Cache.data (cache w)).
Qed.
End ServiceClaims.

Lemma getFeed_cases_witness :
  (exists w',
     getFeed Sample.config (Stored.clock_after GoTime.Second) Session.upstream Stored.world
     = Some (Ok Stored.feed, w') /\
     cache w' = cache Stored.world /\ fetches w' = fetches Stored.world /\
     heap w' = heap Stored.world) /\
  (exists w2,
     getFeed Sample.config Sample.clock Session.upstream Session.start
     = Some (Err "failed to fetch data: dial tcp: i/o timeout", w2) /\
     cache w2 = cache Session.start).
Proof.
  split.
  - apply (proj1 (proj2 (getFeed_cases Sample.config (Stored.clock_after GoTime.Second)
                           Session.upstream Stored.world))
             Stored.feed (set_ticks 2 Stored.world)).
    vm_compute. reflexivity.
  - eexists.
    apply (proj1 (proj2 (proj2 (getFeed_cases Sample.config Sample.clock Session.upstream
                                  Session.start)))
             Session.start).
    + reflexivity.
    + vm_compute. reflexivity.
Defined.

(** First call: the error of the client. Second call: a feed is built and
    stored. Third call: the stored feed, and no further request. *)
Example session_outcomes :
  Session.outcome (Session.call Session.start)
  = Some (Err "failed to fetch data: dial tcp: i/o timeout") /\
  option_map (fun w => Session.outcome (Session.call w)) (Session.after 1)
  = Some (Some (Ok ["urn:advent:2"; "urn:advent:1"; "urn:advent:3"])) /\
  option_map (fun w => Session.outcome (Session.call w)) (Session.after 2)
  = Some (Some (Ok ["urn:advent:2"; "urn:advent:1"; "urn:advent:3"])) /\
  option_map fetches (Session.after 1) = Some 1%nat /\
  option_map fetches (Session.after 2) = Some 2%nat /\
  option_map fetches (Session.after 3) = Some 2%nat /\
  option_map logged (Session.after 3)
  = Some ["Fetching fresh data from API"; "Fetching fresh data from API"; "Serving from cache"].
Proof. vm_compute. repeat split. Qed.

(** ** Rounding to nearest never passes a representable bound *)

Module Rounding.
Import Float64.

(** *** Powers of two *)

Lemma pow2_pos k : 0 <= k -> 0 < 2 ^ k.
Proof. intros. apply Z.pow_pos_nonneg; lia. Qed.

Lemma pow2_add a b : 0 <= a -> 0 <= b -> 2 ^ (a + b) = 2 ^ a * 2 ^ b.
Proof. intros. now apply Z.pow_add_r. Qed.

Lemma pow2_le a b : a <= b -> 2 ^ a <= 2 ^ b.
Proof.
  intros H. destruct (Z.le_gt_cases 0 a).
  - apply Z.pow_le_mono_r; lia.
  - rewrite (Z.pow_neg_r 2 a) by lia. apply Z.pow_nonneg. lia.
Qed.

(** A multiple of a power of two below a larger power. *)
Lemma pow2_lt_inv a b : 0 <= a -> 0 <= b -> 2 ^ a < 2 ^ b -> a < b.
Proof.
  intros Ha Hb H. destruct (Z.lt_ge_cases a b) as [|Hge]; [assumption|].
  pose proof (pow2_le b a Hge). lia.
Qed.

(** *** Digits *)

Lemma digits2_pos_bounds m :
  2 ^ (Zpos (digits2_pos m) - 1) <= Zpos m < 2 ^ Zpos (digits2_pos m).
Proof.
  induction m as [m IH|m IH|]; simpl digits2_pos.
  - rewrite Pos2Z.inj_succ. replace (Z.succ (Zpos (digits2_pos m)) - 1) with (Zpos (digits2_pos m)) by lia.
    rewrite Z.pow_succ_r by lia.
    replace (2 ^ Zpos (digits2_pos m)) with (2 * 2 ^ (Zpos (digits2_pos m) - 1)) in *
      by (rewrite <- Z.pow_succ_r by lia; f_equal; lia).
    lia.
  - rewrite Pos2Z.inj_succ. replace (Z.succ (Zpos (digits2_pos m)) - 1) with (Zpos (digits2_pos m)) by lia.
    rewrite Z.pow_succ_r by lia.
    replace (2 ^ Zpos (digits2_pos m)) with (2 * 2 ^ (Zpos (digits2_pos m) - 1)) in *
      by (rewrite <- Z.pow_succ_r by lia; f_equal; lia).
    lia.
  - simpl. lia.
Qed.

Lemma Zdigits2_nonneg m : 0 <= Zdigits2 m.
Proof. destruct m; simpl; lia. Qed.

(** A number below a number of [d] digits shifted by [j] has at most
    [d + j] digits. *)
Lemma Zdigits2_le m mb j :
  0 <= m -> 0 <= j -> m <= Zpos mb * 2 ^ j ->
  Zdigits2 m <= Zpos (digits2_pos mb) + j.
Proof.
  intros Hm Hj Hle. destruct m as [|m|m]; cbn [Zdigits2]; [lia| |lia].
  pose proof (digits2_pos_bounds m) as [Hlow _].
  pose proof (digits2_pos_bounds mb) as [_ Hhigh].
  pose proof (pow2_pos j Hj) as Hpj.
  assert (H : 2 ^ (Zpos (digits2_pos m) - 1) < 2 ^ (Zpos (digits2_pos mb) + j)).
  { rewrite pow2_add by lia. nia. }
  apply pow2_lt_inv in H; lia.
Qed.

(** *** Shifting right *)

Definition inexact (mrs : shr_record) : bool := shr_r mrs || shr_s mrs.

Lemma shr_1_spec mrs :
  0 <= shr_m mrs ->
  shr_m (shr_1 mrs) = shr_m mrs / 2 /\
  inexact (shr_1 mrs) = Z.odd (shr_m mrs) || inexact mrs.
Proof.
  destruct mrs as [m r s]. unfold inexact. simpl shr_m. intros Hm.
  rewrite <- Z.div2_div.
  destruct m as [|[p|p|]|]; simpl; try lia; split; try reflexivity;
    destruct r, s; reflexivity.
Qed.

Lemma iter_pos_ind {A} (f : A -> A) (P : Z -> A -> Prop) :
  (forall k x, 0 <= k -> P k x -> P (k + 1) (f x)) ->
  forall p k x, 0 <= k -> P k x -> P (k + Zpos p) (SpecFloat.iter_pos f p x).
Proof.
  intros Hstep. induction p as [p IH|p IH|]; intros k x Hk Hx; simpl.
  - replace (k + Zpos p~1) with (k + 1 + Zpos p + Zpos p) by lia.
    apply IH; [lia|]. apply IH; [lia|]. now apply Hstep.
  - replace (k + Zpos p~0) with (k + Zpos p + Zpos p) by lia.
    apply IH; [lia|]. now apply IH.
  - now apply Hstep.
Qed.

(** After [k] steps the mantissa is the quotient by [2^k], and the
    record tells of lost bits only if bits were lost before or now. *)
Definition shifted (m0 : Z) (lost0 : bool) (k : Z) (mrs : shr_record) : Prop :=
  0 <= shr_m mrs /\
  shr_m mrs = m0 / 2 ^ k /\
  (inexact mrs = true -> lost0 = true \/ ~ (2 ^ k | m0)).

Lemma shifted_step m0 lost0 k mrs :
  0 <= k -> shifted m0 lost0 k mrs -> shifted m0 lost0 (k + 1) (shr_1 mrs).
Proof.
  intros Hk (Hpos & Hm & Hlost).
  destruct (shr_1_spec mrs Hpos) as [Hm' Hlost'].
  pose proof (pow2_pos k Hk) as Hpk.
  assert (Hpow : 2 ^ (k + 1) = 2 ^ k * 2) by (rewrite pow2_add by lia; reflexivity).
  split; [|split].
  - rewrite Hm'. apply Z.div_pos; lia.
  - rewrite Hm', Hm, Hpow. apply Z.div_div; lia.
  - rewrite Hlost'. intros H. apply orb_true_iff in H. destruct H as [Hodd|Hin].
    + right. intros [q Hq]. rewrite Hm, Hq, Hpow in Hodd.
      replace (q * (2 ^ k * 2)) with ((q * 2) * 2 ^ k) in Hodd by lia.
      rewrite Z.div_mul in Hodd by lia.
      rewrite Z.odd_mul in Hodd. simpl in Hodd. now rewrite andb_false_r in Hodd.
    + destruct (Hlost Hin) as [H0|Hnd]; [now left|]. right.
      intros [q Hq]. apply Hnd. exists (q * 2). rewrite Hq, Hpow. lia.
Qed.

Lemma shifted_0 m l : 0 <= m -> shifted m (inexact (shr_record_of_loc m l)) 0 (shr_record_of_loc m l).
Proof.
  intros Hm. assert (Hsm : shr_m (shr_record_of_loc m l) = m) by (destruct l as [|[]]; reflexivity).
  split; [|split].
  - now rewrite Hsm.
  - rewrite Hsm. simpl. now rewrite Z.div_1_r.
  - now left.
Qed.

Lemma inexact_of_loc m l :
  inexact (shr_record_of_loc m l) = match l with loc_Exact => false | _ => true end.
Proof. destruct l as [|[]]; reflexivity. Qed.

Lemma loc_of_shr_record_exact mrs :
  inexact mrs = false -> loc_of_shr_record mrs = loc_Exact.
Proof. destruct mrs as [m [] []]; unfold inexact; simpl; congruence. Qed.

(** [shr_fexp]: the exponent reached, and what [shifted] says. *)
Lemma shr_fexp_spec m e l :
  0 <= m ->
  let e' := Z.max e (fexp prec emax (Zdigits2 m + e)) in
  exists mrs,
    shr_fexp prec emax m e l = (mrs, e') /\
    shifted m (match l with loc_Exact => false | _ => true end) (e' - e) mrs.
Proof.
  intros Hm e'. unfold shr_fexp, shr.
  destruct (fexp prec emax (Zdigits2 m + e) - e) as [|p|p] eqn:Hn.
  - exists (shr_record_of_loc m l). split; [f_equal; lia|].
    replace (e' - e) with 0 by lia. rewrite <- (inexact_of_loc m). now apply shifted_0.
  - exists (SpecFloat.iter_pos shr_1 p (shr_record_of_loc m l)). split; [f_equal; lia|].
    replace (e' - e) with (0 + Zpos p) by lia. rewrite <- (inexact_of_loc m).
    apply iter_pos_ind with (P := shifted m (inexact (shr_record_of_loc m l))); [|lia|].
    + intros k x Hk. now apply shifted_step.
    + now apply shifted_0.
  - exists (shr_record_of_loc m l). split; [f_equal; lia|].
    replace (e' - e) with 0 by lia. rewrite <- (inexact_of_loc m). now apply shifted_0.
Qed.

(** *** Below a representable bound *)

Lemma fexp_mono a b : a <= b -> fexp prec emax a <= fexp prec emax b.
Proof. unfold fexp. lia. Qed.

Lemma bounded_inv mb eb :
  bounded prec emax mb eb = true ->
  fexp prec emax (Zpos (digits2_pos mb) + eb) = eb /\ eb <= emax - prec.
Proof.
  unfold bounded, canonical_mantissa. intros H. apply andb_true_iff in H.
  destruct H as [H1 H2]. apply Z.eqb_eq in H1. apply Z.leb_le in H2. now split.
Qed.

(** [x] is a zero or a positive number, and at most [mb * 2^eb]. *)
Definition below (mb : positive) (eb : Z) (x : spec_float) : Prop :=
  match x with
  | S754_zero s => s = false
  | S754_finite s m e => s = false /\ e <= eb /\ Zpos m <= Zpos mb * 2 ^ (eb - e)
  | _ => False
  end.

Definition ulp_lost (lost : bool) : Z := if lost then 1 else 0.

Lemma shift_le m lost e e' mrs mb eb :
  0 <= m -> e <= e' <= eb ->
  shifted m lost (e' - e) mrs ->
  m + ulp_lost lost <= Zpos mb * 2 ^ (eb - e) ->
  shr_m mrs + ulp_lost (inexact mrs) <= Zpos mb * 2 ^ (eb - e').
Proof.
  intros Hm He (Hpos & Hsm & Hlost) Hle.
  pose proof (pow2_pos (e' - e) ltac:(lia)) as Hpk.
  pose proof (pow2_pos (eb - e') ltac:(lia)) as Hpb.
  replace (eb - e) with ((eb - e') + (e' - e)) in Hle by lia.
  rewrite pow2_add in Hle by lia.
  set (B := Zpos mb * 2 ^ (eb - e')) in *.
  assert (HB : m + ulp_lost lost <= 2 ^ (e' - e) * B) by (unfold B; lia).
  rewrite Hsm. destruct (inexact mrs) eqn:Hin; unfold ulp_lost at 1.
  - assert (Hlt : m < 2 ^ (e' - e) * B).
    { destruct (Hlost eq_refl) as [->|Hnd]; [unfold ulp_lost in HB; lia|].
      assert (m <> 2 ^ (e' - e) * B).
      { intros ->. apply Hnd. exists B. lia. }
      unfold ulp_lost in HB. destruct lost; lia. }
    apply Z.div_lt_upper_bound in Hlt; lia.
  - assert (Hle' : m <= 2 ^ (e' - e) * B) by (unfold ulp_lost in HB; destruct lost; lia).
    apply Z.div_le_upper_bound in Hle'; lia.
Qed.

Lemma round_nearest_even_le mrs :
  0 <= shr_m mrs ->
  0 <= round_nearest_even (shr_m mrs) (loc_of_shr_record mrs)
    <= shr_m mrs + ulp_lost (inexact mrs).
Proof.
  destruct mrs as [m [] []]; unfold inexact, ulp_lost; simpl; intros Hm;
    try destruct (Z.even m); lia.
Qed.

(** The exponent a shift stops at is not above that of the bound. *)
Lemma shift_exponent_le m e mb eb :
  0 <= m -> bounded prec emax mb eb = true -> e <= eb ->
  m <= Zpos mb * 2 ^ (eb - e) ->
  Z.max e (fexp prec emax (Zdigits2 m + e)) <= eb.
Proof.
  intros Hm Hb He Hle. destruct (bounded_inv _ _ Hb) as [Hcanon _].
  pose proof (Zdigits2_le m mb (eb - e) Hm ltac:(lia) Hle) as Hd.
  pose proof (fexp_mono (Zdigits2 m + e) (Zpos (digits2_pos mb) + eb) ltac:(lia)).
  lia.
Qed.

(** Rounding a number that is at most a representable bound, known by
    its truncation to a grid on which the bound lies, gives at most the
    bound: no overflow, no NaN. *)
Lemma binary_round_aux_below mx ex lx mb eb :
  0 <= mx -> bounded prec emax mb eb = true -> ex <= eb ->
  mx + ulp_lost (match lx with loc_Exact => false | _ => true end)
    <= Zpos mb * 2 ^ (eb - ex) ->
  below mb eb (binary_round_aux prec emax false mx ex lx).
Proof.
  intros Hmx Hb Hex Hle.
  assert (Hle0 : mx <= Zpos mb * 2 ^ (eb - ex)) by (unfold ulp_lost in Hle; destruct lx; lia).
  pose proof (shift_exponent_le mx ex mb eb Hmx Hb Hex Hle0) as He1.
  destruct (shr_fexp_spec mx ex lx Hmx) as (mrs1 & Hshr1 & Hshifted1).
  set (e1 := Z.max ex (fexp prec emax (Zdigits2 mx + ex))) in *.
  pose proof (shift_le _ _ ex e1 mrs1 mb eb Hmx ltac:(lia) Hshifted1 Hle) as H1.
  destruct Hshifted1 as (Hpos1 & _ & _).
  pose proof (round_nearest_even_le mrs1 Hpos1) as Hround.
  set (m2 := round_nearest_even (shr_m mrs1) (loc_of_shr_record mrs1)) in *.
  assert (Hm2 : 0 <= m2) by lia.
  assert (Hle2 : m2 <= Zpos mb * 2 ^ (eb - e1)) by lia.
  pose proof (shift_exponent_le m2 e1 mb eb Hm2 Hb He1 Hle2) as He2.
  destruct (shr_fexp_spec m2 e1 loc_Exact Hm2) as (mrs2 & Hshr2 & Hshifted2).
  set (e2 := Z.max e1 (fexp prec emax (Zdigits2 m2 + e1))) in *.
  pose proof (shift_le _ _ e1 e2 mrs2 mb eb Hm2 ltac:(lia) Hshifted2
                ltac:(unfold ulp_lost; lia)) as H2.
  destruct Hshifted2 as (Hpos2 & _ & _).
  unfold binary_round_aux. rewrite Hshr1. fold m2. rewrite Hshr2.
  destruct (bounded_inv _ _ Hb) as [_ Hmax].
  destruct (shr_m mrs2) as [|m|m] eqn:Hm.
  - reflexivity.
  - replace (e2 <=? emax - prec) with true by (symmetry; apply Z.leb_le; lia).
    cbn [below]. repeat split; [lia|].
    unfold ulp_lost in H2. destruct (inexact mrs2); lia.
  - lia.
Qed.

(** *** The three operations of the discount *)

Definition one : spec_float := S754_finite false 4503599627370496 (-52).
Definition hundred : spec_float := S754_finite false 7036874417766400 (-46).

Lemma pow2_52 e : e <= -52 -> 4503599627370496 * 2 ^ (-52 - e) = 2 ^ (- e).
Proof.
  intros He. change 4503599627370496 with (2 ^ 52).
  rewrite <- pow2_add by lia. f_equal. lia.
Qed.

(** [q * 100], for [q] at most 1, is at most 100. *)
Lemma mul_hundred_below q :
  below 4503599627370496 (-52) q ->
  below 7036874417766400 (-46) (SFmul prec emax q hundred).
Proof.
  destruct q as [s|s| |s m e]; cbn [below]; try contradiction.
  - intros ->. reflexivity.
  - intros (-> & He & Hm). cbn [SFmul hundred xorb].
    apply binary_round_aux_below; [lia | reflexivity | lia |].
    unfold ulp_lost. rewrite pow2_52 in Hm by lia.
    replace (-46 - (e + -46)) with (- e) by lia.
    rewrite Pos2Z.inj_mul. nia.
Qed.

Lemma new_location_exact nb r :
  new_location nb r = loc_Exact \/ (r <> 0 /\ exists c, new_location nb r = loc_Inexact c).
Proof.
  unfold new_location, new_location_even, new_location_odd.
  destruct (Z.even nb); destruct (Z.eqb_spec r 0); auto; right; split; eauto.
Qed.

(** [a / o], for [a] at most [o], is at most 1. *)
Lemma div_below a mo eo :
  below mo eo a ->
  below 4503599627370496 (-52) (SFdiv prec emax a (S754_finite false mo eo)).
Proof.
  destruct a as [s|s| |s m e]; cbn [below]; try contradiction.
  - intros ->. reflexivity.
  - intros (-> & He & Hm). cbn [SFdiv xorb]. unfold SFdiv_core_binary.
    cbn [Zdigits2].
    set (e' := Z.min (fexp prec emax (Zpos (digits2_pos m) + e - (Zpos (digits2_pos mo) + eo)))
                     (e - eo)).
    pose proof (Zdigits2_le (Zpos m) mo (eo - e) ltac:(lia) ltac:(lia) Hm) as Hd.
    cbn [Zdigits2] in Hd.
    assert (He' : e' <= -53) by (unfold e', fexp, emin, prec, emax; lia).
    assert (Hs : 0 <= e - eo - e') by (unfold e'; lia).
    set (m' := match e - eo - e' with
               | 0 => Zpos m
               | Zpos _ => Z.shiftl (Zpos m) (e - eo - e')
               | Zneg _ => 0
               end).
    assert (Hm' : m' = Zpos m * 2 ^ (e - eo - e')).
    { unfold m'. destruct (e - eo - e') as [|p|p] eqn:Hsp.
      - simpl. lia.
      - now rewrite Z.shiftl_mul_pow2 by lia.
      - lia. }
    pose proof (Z_div_mod m' (Zpos mo) ltac:(lia)) as Hdiv.
    destruct (Z.div_eucl m' (Zpos mo)) as [q r]. destruct Hdiv as [Hqr Hr].
    pose proof (pow2_pos (e - eo - e') Hs) as Hps.
    pose proof (pow2_pos (eo - e) ltac:(lia)) as Hpe.
    assert (Hpow : 2 ^ (- e') = 2 ^ (eo - e) * 2 ^ (e - eo - e')).
    { rewrite <- pow2_add by lia. f_equal. lia. }
    assert (Hle : Zpos mo * q + r <= Zpos mo * 2 ^ (- e')) by (rewrite <- Hqr, Hm', Hpow; nia).
    assert (Hq : 0 <= q) by nia.
    apply binary_round_aux_below; [exact Hq | reflexivity | lia |].
    rewrite pow2_52 by lia.
    destruct (new_location_exact (Zpos mo) r) as [-> | (Hr0 & c & ->)]; unfold ulp_lost; nia.
Qed.

Lemma iter_xO_pow2 m d : Zpos (Pos.iter xO m d) = Zpos m * 2 ^ Zpos d.
Proof.
  induction d as [|d IH] using Pos.peano_ind.
  - simpl. lia.
  - rewrite Pos.iter_succ, Pos2Z.inj_xO, IH, Pos2Z.inj_succ, Z.pow_succ_r by lia. lia.
Qed.

Lemma shl_align_spec mx ex ex' :
  exists m,
    shl_align mx ex ex' = (m, Z.min ex ex') /\
    Zpos m = Zpos mx * 2 ^ (ex - Z.min ex ex').
Proof.
  unfold shl_align. destruct (ex' - ex) as [|d|d] eqn:Hd.
  - exists mx. rewrite Z.min_l by lia. rewrite Z.sub_diag. split; [reflexivity | simpl; lia].
  - exists mx. rewrite Z.min_l by lia. rewrite Z.sub_diag. split; [reflexivity | simpl; lia].
  - exists (Pos.iter xO mx d). rewrite Z.min_r by lia. split; [reflexivity|].
    rewrite iter_xO_pow2. f_equal. f_equal. lia.
Qed.

(** Of two representable numbers the one with the smaller exponent is
    the smaller. *)
Lemma bounded_lt mc ec mo eo :
  bounded prec emax mc ec = true -> bounded prec emax mo eo = true ->
  ec < eo -> Zpos mc < Zpos mo * 2 ^ (eo - ec).
Proof.
  intros Hc Ho Hlt.
  destruct (bounded_inv _ _ Hc) as [Hcc _]. destruct (bounded_inv _ _ Ho) as [Hco _].
  unfold fexp, emin, prec, emax in Hcc, Hco.
  pose proof (digits2_pos_bounds mc) as [_ Hmc].
  pose proof (digits2_pos_bounds mo) as [Hmo _].
  assert (Hdo : Zpos (digits2_pos mo) = 53) by lia.
  rewrite Hdo in Hmo.
  pose proof (pow2_le (Zpos (digits2_pos mc)) 53 ltac:(lia)) as H53.
  pose proof (pow2_le 1 (eo - ec) ltac:(lia)) as H1.
  change (2 ^ (53 - 1)) with 4503599627370496 in Hmo.
  change (2 ^ 53) with 9007199254740992 in H53.
  change (2 ^ 1) with 2 in H1.
  nia.
Qed.

(** [o - c], for [0 <= c < o], is at most [o]. *)
Lemma sub_below mo eo c :
  bounded prec emax mo eo = true ->
  valid_binary prec emax c = true ->
  SFleb (S754_zero false) c = true ->
  SFleb (S754_finite false mo eo) c = false ->
  below mo eo (SFsub prec emax (S754_finite false mo eo) c).
Proof.
  intros Ho Hc Hpos Hlt.
  assert (Hself : below mo eo (S754_finite false mo eo)).
  { cbn [below]. rewrite Z.sub_diag. repeat split; lia. }
  destruct c as [s|s| |s mc ec].
  - exact Hself.
  - destruct s; discriminate.
  - discriminate.
  - destruct s; [discriminate|]. cbn [valid_binary] in Hc.
    assert (Hval : ec <= eo /\ Zpos mc < Zpos mo * 2 ^ (eo - ec)).
    { unfold SFleb, SFcompare in Hlt. destruct (Z.compare_spec eo ec) as [Heq|Hl|Hg].
      - subst ec. rewrite Z.sub_diag. split; [lia|].
        change (Pos.compare_cont Eq mo mc) with (Pos.compare mo mc) in Hlt.
        destruct (Pos.compare_spec mo mc); try discriminate. lia.
      - discriminate.
      - split; [lia|]. apply bounded_lt; auto; lia. }
    destruct Hval as [Hec Hmc].
    cbn [SFsub cond_Zopp].
    destruct (shl_align_spec mo eo (Z.min eo ec)) as (mo' & -> & Hmo').
    destruct (shl_align_spec mc ec (Z.min eo ec)) as (mc' & -> & Hmc').
    cbn [fst]. rewrite !Z.min_r in * by lia. rewrite Z.sub_diag in Hmc'.
    change (2 ^ 0) with 1 in Hmc'.
    destruct (Zpos mo' - Zpos mc') as [|md|md] eqn:Hmd; [lia| |lia].
    cbn [binary_normalize]. unfold binary_round.
    destruct (shl_align_spec md ec (fexp prec emax (Zpos (digits2_pos md) + ec)))
      as (mz & -> & Hmz).
    set (ez := Z.min ec (fexp prec emax (Zpos (digits2_pos md) + ec))) in *.
    assert (Hez : ez <= ec) by (unfold ez; lia).
    pose proof (pow2_pos (ec - ez) ltac:(lia)) as Hp1.
    pose proof (pow2_pos (eo - ec) ltac:(lia)) as Hp2.
    apply binary_round_aux_below; [lia | exact Ho | lia |].
    unfold ulp_lost. replace (eo - ez) with ((eo - ec) + (ec - ez)) by lia.
    rewrite pow2_add by lia. nia.
Qed.

(** A positive number divided by itself is 1. *)
Lemma div_self m e :
  SFdiv prec emax (S754_finite false m e) (S754_finite false m e) = one.
Proof.
  cbn [SFdiv xorb]. unfold SFdiv_core_binary. cbn [Zdigits2].
  replace (Zpos (digits2_pos m) + e - (Zpos (digits2_pos m) + e)) with 0 by lia.
  rewrite Z.sub_diag.
  change (Z.min (fexp prec emax 0) 0) with (-53). change (0 - -53) with 53. cbv iota.
  rewrite Z.shiftl_mul_pow2 by lia.
  assert (Hdiv : Z.div_eucl (Zpos m * 2 ^ 53) (Zpos m) = (2 ^ 53, 0)).
  { pose proof (Z.div_mul (2 ^ 53) (Zpos m) ltac:(lia)) as Hq.
    pose proof (Z.mod_mul (2 ^ 53) (Zpos m) ltac:(lia)) as Hr.
    rewrite (Z.mul_comm (Zpos m)).
    unfold Z.div, Z.modulo in Hq, Hr.
    destruct (Z.div_eucl (2 ^ 53 * Zpos m) (Zpos m)) as [q r]. cbv beta iota in Hq, Hr. congruence. }
  rewrite Hdiv.
  assert (Hloc : new_location (Zpos m) 0 = loc_Exact).
  { unfold new_location. now destruct (Z.even (Zpos m)). }
  rewrite Hloc. vm_compute. reflexivity.
Qed.

Lemma mul_one_hundred : SFmul prec emax one hundred = hundred.
Proof. vm_compute. reflexivity. Qed.

(** The integer part of a number that is at most 100. *)
Lemma trunc_below x :
  below 7036874417766400 (-46) x ->
  exists z, Float64.trunc x = Some z /\ 0 <= z <= 100.
Proof.
  destruct x as [s|s| |s m e]; cbn [below]; try contradiction.
  - intros _. exists 0. split; [reflexivity | lia].
  - intros (-> & He & Hm). destruct e as [|p|p]; try lia.
    exists (Zpos m / 2 ^ Zpos p). split; [reflexivity|].
    pose proof (pow2_pos (Zpos p) ltac:(lia)) as Hp.
    assert (Hle : Zpos m <= 2 ^ Zpos p * 100).
    { change 7036874417766400 with (100 * 2 ^ 46) in Hm.
      replace (2 ^ Zpos p) with (2 ^ 46 * 2 ^ (-46 - Zneg p))
        by (rewrite <- pow2_add by lia; f_equal; lia).
      lia. }
    split.
    + apply Z.div_pos; lia.
    + apply Z.div_le_upper_bound; lia.
Qed.
End Rounding.

(** ** The discount (C1) *)

Section DiscountFacts.
Context {lib : GoLib}.

Lemma positive_finite o :
  Float64.is_finite o = true -> Float64.le o (Float64.of_Z 0) = false ->
  exists mo eo, o = S754_finite false mo eo.
Proof.
  destruct o as [s|s| |s mo eo]; try discriminate.
  destruct s; [discriminate|]. intros _ _. now exists mo, eo.
Qed.

Lemma int_of_float64_below x :
  Rounding.below 7036874417766400 (-46) x -> 0 <= int_of_float64 x <= 100.
Proof.
  intros Hx. destruct (Rounding.trunc_below x Hx) as (z & Hz & Hrange).
  unfold int_of_float64. rewrite Hz.
  replace (Int64.in_range z) with true; [exact Hrange|].
  symmetry. unfold Int64.in_range, Int64.min_int, Int64.max_int.
  apply andb_true_iff. split; apply Z.leb_le; lia.
Qed.

(** The integer part of a number that is not negative is the floor of
    its exact value. *)
Lemma trunc_floor x :
  Rounding.below 7036874417766400 (-46) x ->
  exists q, exact x = Some q /\ Float64.trunc x = Some (Qfloor q).
Proof.
  destruct x as [s|s| |s m e]; cbn [Rounding.below]; try contradiction.
  - intros _. now exists 0%Q.
  - intros (-> & _ & _). destruct e as [|p|p]; cbn [exact Float64.trunc cond_Zopp].
    + eexists. split; [reflexivity|]. simpl Qfloor. now rewrite Z.div_1_r.
    + eexists. split; [reflexivity|]. simpl Qfloor. now rewrite Z.div_1_r.
    + eexists. split; [reflexivity|]. simpl Qfloor. now rewrite Pos2Z.inj_pow.
Qed.

(** Between the two guards: the difference, the quotient and the
    product stay at most the original price, 1 and 100. *)
Lemma discount_value_below current mo eo :
  Float64.valid current = true -> Float64.valid (S754_finite false mo eo) = true ->
  Float64.le (Float64.of_Z 0) current = true ->
  Float64.ge current (S754_finite false mo eo) = false ->
  Rounding.below 7036874417766400 (-46)
    (Float64.mul (Float64.div (Float64.sub (S754_finite false mo eo) current)
                              (S754_finite false mo eo))
                 (Float64.of_Z 100)).
Proof.
  intros Hvc Hvo Hpos Hge. change (Float64.of_Z 100) with Rounding.hundred.
  apply Rounding.mul_hundred_below, Rounding.div_below, Rounding.sub_below; assumption.
Qed.

(** For finite prices and a current price that is not negative, the
    discount is between 0 and 100. *)
Lemma calculateDiscount_range current original :
  Float64.valid current = true -> Float64.valid original = true ->
  Float64.is_finite original = true ->
  Float64.le (Float64.of_Z 0) current = true ->
  0 <= calculateDiscount current original <= 100.
Proof.
  intros Hvc Hvo Hfin Hpos. unfold calculateDiscount.
  destruct (Float64.le original (Float64.of_Z 0)) eqn:Hle; [simpl; lia|].
  destruct (Float64.ge current original) eqn:Hge; [simpl; lia|]. cbn [orb].
  destruct (positive_finite original Hfin Hle) as (mo & eo & ->).
  now apply int_of_float64_below, discount_value_below.
Qed.

(** ... and it is the floor of the exact value of the rounded product. *)
Lemma calculateDiscount_floor current original :
  Float64.valid current = true -> Float64.valid original = true ->
  Float64.is_finite original = true ->
  Float64.le (Float64.of_Z 0) current = true ->
  Float64.le original (Float64.of_Z 0) || Float64.ge current original = false ->
  exists q,
    exact (Float64.mul (Float64.div (Float64.sub original current) original)
                       (Float64.of_Z 100)) = Some q /\
    calculateDiscount current original = Qfloor q.
Proof.
  intros Hvc Hvo Hfin Hpos Hguard. unfold calculateDiscount. rewrite Hguard.
  apply orb_false_iff in Hguard. destruct Hguard as [Hle Hge].
  destruct (positive_finite original Hfin Hle) as (mo & eo & ->).
  pose proof (discount_value_below current mo eo Hvc Hvo Hpos Hge) as Hbelow.
  destruct (trunc_floor _ Hbelow) as (q & Hq & Htrunc).
  exists q. split; [exact Hq|].
  pose proof (int_of_float64_below _ Hbelow) as Hrange.
  unfold int_of_float64 in *. rewrite Htrunc in *.
  destruct (Int64.in_range (Qfloor q)) eqn:Hin; [reflexivity|].
  unfold Int64.in_range, Int64.min_int, Int64.max_int in Hin.
  destruct (Rounding.trunc_below _ Hbelow) as (z & Hz & Hz100).
  rewrite Htrunc in Hz. injection Hz as <-.
  apply andb_false_iff in Hin. destruct Hin as [Hin|Hin]; apply Z.leb_gt in Hin; lia.
Qed.

(** A current price of zero, against a positive original price, is a
    discount of 100. *)
Lemma calculateDiscount_free s original :
  Float64.is_finite original = true ->
  Float64.le original (Float64.of_Z 0) = false ->
  calculateDiscount (S754_zero s) original = 100.
Proof.
  intros Hfin Hle. unfold calculateDiscount. rewrite Hle.
  destruct (positive_finite original Hfin Hle) as (mo & eo & ->).
  cbn [orb Float64.ge SFleb SFcompare].
  unfold Float64.sub, Float64.div, Float64.mul. cbn [SFsub].
  rewrite Rounding.div_self.
  change (Float64.of_Z 100) with Rounding.hundred.
  rewrite Rounding.mul_one_hundred. reflexivity.
Qed.

(** C1, amended: the discount of a product is 0 when it has no original
    price. With an original price O and a current price C it is 0 when
    O <= 0 or C >= O, and otherwise the integer part of
    ((O - C) / O) * 100 as [float64] computes it, each operation
    rounded to nearest. For finite prices with C >= 0 it lies between 0
    and 100, both included, and between the guards it is the floor of
    the exact value of that rounded product; it is 100 when C is zero
    and O is positive. *)
Theorem discount_cases p :
  match Offer.InsteadOfPrice (Product.Offer p) with
  | None => discount p = 0
  | Some instead =>
      let C := Price.AmountInclusive (Offer.Price (Product.Offer p)) in
      let O := OriginalPrice.AmountInclusive (InsteadOfPrice.Price instead) in
      let product := Float64.mul (Float64.div (Float64.sub O C) O) (Float64.of_Z 100) in
      (if Float64.le O (Float64.of_Z 0) || Float64.ge C O then discount p = 0
       else discount p = int_of_float64 product) /\
      (Float64.valid C = true -> Float64.valid O = true -> Float64.is_finite O = true ->
       Float64.le (Float64.of_Z 0) C = true ->
       0 <= discount p <= 100 /\
       (Float64.le O (Float64.of_Z 0) || Float64.ge C O = false ->
        exists q, exact product = Some q /\ discount p = Qfloor q)) /\
      (Float64.is_finite O = true -> Float64.le O (Float64.of_Z 0) = false ->
       (exists s, C = S754_zero s) ->
       discount p = 100)
  end.
Proof.
  unfold discount. destruct (Offer.InsteadOfPrice (Product.Offer p)) as [instead|];
    [|reflexivity].
  cbv zeta. split; [|split].
  - unfold calculateDiscount. now destruct (_ || _).
  - intros Hvc Hvo Hfin Hpos. split.
    + now apply calculateDiscount_range.
    + now apply calculateDiscount_floor.
  - intros Hfin Hle [s ->]. now apply calculateDiscount_free.
Qed.
End DiscountFacts.

(** For a current price of 0 the discount is 100, which is not below 100. *)
Lemma discount_of_giveaway : ~ discount_as_specified giveaway.
Proof.
  intros [_ [_ Hlt]]. vm_compute in Hlt. discriminate Hlt.
Qed.

(** The quotient and the product are rounded: 71.00 instead of 100.00 is
    a discount of 28, where the exact quotient gives 29. *)
Example discount_rounds_down :
  let p := Sample.product 8 "Chair" "" (Float64.of_Z 71) (Some (Float64.of_Z 100)) in
  discount p = 28 /\
  Qfloor ((100 - 71) / 100 * 100)%Q = 29.
Proof. split; reflexivity. Qed.

Lemma discount_cases_witness :
  Float64.valid (Float64.of_decimal 800 2) = true /\
  Float64.valid (Float64.of_decimal 1000 2) = true /\
  Float64.is_finite (Float64.of_decimal 1000 2) = true /\
  Float64.le (Float64.of_Z 0) (Float64.of_decimal 800 2) = true /\
  0 <= discount Sample.late <= 100 /\
  discount giveaway = 100.
Proof.
  split; [reflexivity|]. split; [reflexivity|]. split; [reflexivity|].
  split; [reflexivity|]. split.
  - apply (proj1 (proj2 (discount_cases Sample.late))); reflexivity.
  - apply (proj2 (proj2 (discount_cases giveaway))); [reflexivity | reflexivity | now exists false].
Defined.

Example discount_of_late : discount Sample.late = 20.
Proof. reflexivity. Qed.

(** * Further properties *)

(** ** Writing the cache, then reading it *)

Section CacheRoundTrip.
Variable clock : nat -> Time.

(** X1: [Cache.Set] followed by [Cache.Get] is a round trip. The feed
    just set replaces whatever was stored, the duration is kept, and
    the time of storing is the reading of the clock that [Set] takes.
    [Get] then returns that feed exactly when its own reading of the
    clock is less than the duration after the one of [Set], and
    nothing otherwise. *)
Theorem Cache_Set_then_Get w feed :
  exists r w',
    bind (Cache_Set clock feed) (fun _ => Cache_Get clock) w = Some (r, w') /\
    cache w' = Cache.mk (Some feed) (clock (ticks w)) (Cache.duration (cache w)) /\
    (r = Some feed <->
     GoTime.Sub (clock (S (ticks w))) (clock (ticks w)) < Cache.duration (cache w)) /\
    (r = None <->
     Cache.duration (cache w) <= GoTime.Sub (clock (S (ticks w))) (clock (ticks w))).
Proof.
  unfold bind at 1.
  assert (Hset : Cache_Set clock feed w
                 = Some (tt, mkWorld (heap w) (S (ticks w)) (fetches w)
                                     (Cache.mk (Some feed) (clock (ticks w))
                                               (Cache.duration (cache w)))
                                     (logged w))) by reflexivity.
  rewrite Hset, Cache_Get_run. cbn [cache Cache.data Cache.fetchedAt Cache.duration ticks].
  destruct (Z.ltb_spec (GoTime.Sub (clock (S (ticks w))) (clock (ticks w)))
                       (Cache.duration (cache w))) as [Hage|Hage].
  - do 2 eexists. split; [reflexivity|]. split; [reflexivity|].
    split; split; try easy; lia.
  - do 2 eexists. split; [reflexivity|]. split; [reflexivity|].
    split; split; try easy; lia.
Qed.
End CacheRoundTrip.

(** ** Runs of the client and of the service *)

Section ServiceRuns.
Context {lib : GoLib}.
Variable config : Config.t.
Variable clock : nat -> Time.
Variable upstream : nat -> Upstream.Response.

(** A failed request leaves the world as it was, the count of the
    requests apart. *)
Lemma fetchAdventCalendar_Err w err w' :
  fetchAdventCalendar upstream w = Some (Err err, w') ->
  w' = set_fetches (S (fetches w)) w.
Proof.
  unfold fetchAdventCalendar, bind, gets, modify.
  destruct (upstream (fetches w)) as [e | status body [e | [|c rest]]];
    try destruct (negb (status =? 200)); try (now intros [= _ <-]).
  unfold alloc. destruct (Upstream.Products c); discriminate.
Qed.

(** A calendar comes from the first envelope of a response with the
    status 200; its products are placed in the store, behind the
    arrays that are there. *)
Lemma fetchAdventCalendar_Ok w calendar w' :
  fetchAdventCalendar upstream w = Some (Ok calendar, w') ->
  exists body c rest,
    upstream (fetches w) = Upstream.HttpResponse 200 body (inr (c :: rest)) /\
    AdventCalendar.CurrentDate calendar = Upstream.CurrentDate c /\
    AdventCalendar.Header calendar = Upstream.Header c /\
    holds w' (AdventCalendar.Products calendar) (Upstream.Products c) /\
    (forall a arr, nth_error (heap w) a = Some arr -> nth_error (heap w') a = Some arr) /\
    cache w' = cache w /\ ticks w' = ticks w /\ fetches w' = S (fetches w) /\
    logged w' = logged w.
Proof.
  unfold fetchAdventCalendar, bind, gets, modify.
  destruct (upstream (fetches w)) as [e | status body [e | [|c rest]]];
    try discriminate;
    destruct (Z.eqb_spec status 200) as [->|Hne]; cbn [negb]; try discriminate.
  unfold alloc. destruct (Upstream.Products c) as [|p ps] eqn:Hps.
  - intros [= <- <-]. exists body, c, rest. rewrite Hps. now repeat split.
  - intros [= <- <-]. exists body, c, rest. rewrite Hps. repeat split.
    + simpl. apply nth_error_last.
    + intros a arr Ha. simpl. now apply nth_error_grow.
Qed.

(** The message of each failure of the client. *)
Lemma fetchAdventCalendar_message w err w' :
  fetchAdventCalendar upstream w = Some (Err err, w') ->
  match upstream (fetches w) with
  | Upstream.TransportError e => err = ("failed to fetch data: " ++ e)%string
  | Upstream.HttpResponse status body decoded =>
      if status =? 200 then
        match decoded with
        | inl e => err = ("failed to decode response: " ++ e)%string
        | inr [] => err = "empty response from API"%string
        | inr (_ :: _) => False
        end
      else err = ("API returned status " ++ Fmt.d status ++ ": " ++ body)%string
  end.
Proof.
  unfold fetchAdventCalendar, bind, gets, modify.
  destruct (upstream (fetches w)) as [e | status body [e | [|c rest]]];
    try destruct (status =? 200); cbn [negb]; try (now intros [= <- _]).
  unfold alloc. destruct (Upstream.Products c); discriminate.
Qed.

(** The three ways through [getFeed], each with the world it leaves:
    the stored feed is fresh; it is not and the client fails; it is not
    and the client succeeds. *)
Lemma getFeed_run w :
  exists r w',
    getFeed config clock upstream w = Some (r, w') /\
    ((exists feed,
        Cache.data (cache w) = Some feed /\
        GoTime.Sub (clock (ticks w)) (Cache.fetchedAt (cache w)) < Cache.duration (cache w) /\
        r = Ok feed /\
        w' = mkWorld (heap w) (S (ticks w)) (fetches w) (cache w)
                     (logged w ++ ["Serving from cache"%string])) \/
     (exists w1,
        Cache_Get clock w = Some (None, w1) /\
        ((exists err,
            fetchAdventCalendar upstream (asking w1) = Some (Err err, w') /\
            r = Err err /\
            w' = mkWorld (heap w) (ticks w1) (S (fetches w)) (cache w)
                         (logged w ++ ["Fetching fresh data from API"%string])) \/
         (exists calendar w2 src entries iconURL,
            fetchAdventCalendar upstream (asking w1) = Some (Ok calendar, w2) /\
            holds w2 (AdventCalendar.Products calendar) src /\
            Forall2 (fun p e => entry config p = Some e) (sort_Slice later src) entries /\
            fixIconURL (Header.ImageURL (AdventCalendar.Header calendar)) = Some iconURL /\
            r = Ok (feed_of config calendar entries iconURL (clock (ticks w1))) /\
            w' = mkWorld (heap w2 ++ [sort_Slice later src]) (S (S (ticks w1))) (S (fetches w))
                         (Cache.mk (Some (feed_of config calendar entries iconURL
                                                  (clock (ticks w1))))
                                   (clock (S (ticks w1))) (Cache.duration (cache w)))
                         (logged w ++ ["Fetching fresh data from API"%string]))))).
Proof.
  assert (Hmiss : forall w1,
    Cache_Get clock w = Some (None, w1) ->
    exists r w',
      getFeed config clock upstream w = Some (r, w') /\
      ((exists err,
          fetchAdventCalendar upstream (asking w1) = Some (Err err, w') /\
          r = Err err /\
          w' = mkWorld (heap w) (ticks w1) (S (fetches w)) (cache w)
                       (logged w ++ ["Fetching fresh data from API"%string])) \/
       (exists calendar w2 src entries iconURL,
          fetchAdventCalendar upstream (asking w1) = Some (Ok calendar, w2) /\
          holds w2 (AdventCalendar.Products calendar) src /\
          Forall2 (fun p e => entry config p = Some e) (sort_Slice later src) entries /\
          fixIconURL (Header.ImageURL (AdventCalendar.Header calendar)) = Some iconURL /\
          r = Ok (feed_of config calendar entries iconURL (clock (ticks w1))) /\
          w' = mkWorld (heap w2 ++ [sort_Slice later src]) (S (S (ticks w1))) (S (fetches w))
                       (Cache.mk (Some (feed_of config calendar entries iconURL
                                                (clock (ticks w1))))
                                 (clock (S (ticks w1))) (Cache.duration (cache w)))
                       (logged w ++ ["Fetching fresh data from API"%string])))).
  { intros w1 Hget.
    destruct (Cache_Get_frame _ _ _ _ Hget) as (Hc & Hh & Hf & Hl).
    unfold getFeed. rewrite (bind_run _ _ _ _ _ Hget).
    rewrite (bind_run _ _ _ tt (asking w1)) by reflexivity.
    destruct (fetchAdventCalendar_run upstream (asking w1))
      as ([calendar|err] & w2 & Hfetch & _).
    - destruct (fetchAdventCalendar_Ok _ _ _ Hfetch)
        as (body & c & rest & _ & _ & _ & Hsrc & _ & Hc2 & Ht2 & Hf2 & Hl2).
      destruct (buildAtomFeed_run config clock calendar w2 _ Hsrc)
        as (entries & iconURL & Hall & Hicon & Hbuild).
      rewrite (bind_run _ _ _ _ _ Hfetch), (bind_run _ _ _ _ _ Hbuild).
      do 2 eexists. split; [reflexivity|]. right.
      exists calendar, w2, (Upstream.Products c), entries, iconURL.
      split; [exact Hfetch|]. split; [exact Hsrc|]. split; [exact Hall|].
      split; [exact Hicon|]. simpl in Ht2, Hc2, Hf2, Hl2. rewrite Ht2. split; [reflexivity|].
      destruct w2 as [h2 t2 f2 c2 l2]. simpl in *. subst t2 f2 c2 l2.
      now rewrite Hc, Hf, Hl.
    - rewrite (bind_run _ _ _ _ _ Hfetch).
      do 2 eexists. split; [reflexivity|]. left. exists err.
      split; [exact Hfetch|]. split; [reflexivity|].
      rewrite (fetchAdventCalendar_Err _ _ _ Hfetch).
      unfold set_fetches, asking, set_logged. cbn [heap ticks fetches cache logged].
      now rewrite Hc, Hh, Hf, Hl. }
  pose proof (Cache_Get_run clock w) as Hget.
  destruct (Cache.data (cache w)) as [feed|] eqn:Hdata.
  - destruct (Z.ltb_spec (GoTime.Sub (clock (ticks w)) (Cache.fetchedAt (cache w)))
                         (Cache.duration (cache w))) as [Hage|Hage].
    + unfold getFeed. rewrite (bind_run _ _ _ _ _ Hget).
      do 2 eexists. split; [reflexivity|]. left. exists feed. now repeat split.
    + destruct (Hmiss _ Hget) as (r & w' & Hrun & Hcases).
      exists r, w'. split; [exact Hrun|]. right. eexists. split; [exact Hget | exact Hcases].
  - destruct (Hmiss _ Hget) as (r & w' & Hrun & Hcases).
    exists r, w'. split; [exact Hrun|]. right. eexists. split; [exact Hget | exact Hcases].
Qed.
End ServiceRuns.

(** ** The service, call after call *)

Section ServiceFacts.
Context {lib : GoLib}.
Variable config : Config.t.
Variable clock : nat -> Time.
Variable upstream : nat -> Upstream.Response.

(** X2: a duration that is not positive switches the cache off. With
    such a duration, and a clock that is not behind the time of
    storing, every call of [getFeed] sends a request upstream, whatever
    is stored, and says so in the log. *)
Theorem no_caching_without_duration w :
  Cache.duration (cache w) <= 0 ->
  instant (Cache.fetchedAt (cache w)) <= instant (clock (ticks w)) ->
  exists r w',
    getFeed config clock upstream w = Some (r, w') /\
    fetches w' = S (fetches w) /\
    logged w' = logged w ++ ["Fetching fresh data from API"%string].
Proof.
  intros Hdur Hnow.
  destruct (getFeed_run config clock upstream w) as (r & w' & Hrun & Hcases).
  exists r, w'. split; [exact Hrun|].
  destruct Hcases as [(feed & _ & Hage & _) | (w1 & _ & [(err & _ & _ & ->) | Hok])].
  - pose proof (saturate_ge (instant (clock (ticks w)) - instant (Cache.fetchedAt (cache w))) 0
                            ltac:(unfold Int64.max_int; lia) ltac:(lia)) as Hsat.
    unfold GoTime.Sub in Hage. lia.
  - now split.
  - destruct Hok as (calendar & w2 & src & entries & iconURL & _ & _ & _ & _ & _ & ->).
    now split.
Qed.

(** X3: the feed that [getFeed] returns is the feed the cache holds
    after the call, on every path. A second call that reads the clock
    less than the duration after the time of storing returns the same
    feed, sends no request, and leaves the cache and the store as they
    are. *)
Theorem getFeed_again w feed w1 :
  getFeed config clock upstream w = Some (Ok feed, w1) ->
  Cache.data (cache w1) = Some feed /\
  (GoTime.Sub (clock (ticks w1)) (Cache.fetchedAt (cache w1)) < Cache.duration (cache w1) ->
   exists w2,
     getFeed config clock upstream w1 = Some (Ok feed, w2) /\
     fetches w2 = fetches w1 /\ cache w2 = cache w1 /\ heap w2 = heap w1).
Proof.
  intros Hrun.
  assert (Hdata : Cache.data (cache w1) = Some feed).
  { destruct (getFeed_run config clock upstream w) as (r & w' & Hrun' & Hcases).
    rewrite Hrun in Hrun'. injection Hrun' as <- <-.
    destruct Hcases as [(f & Hf & _ & [= ->] & ->) | (w0 & _ & [(err & _ & [=] & _) | Hok])].
    - exact Hf.
    - destruct Hok as (calendar & w2 & src & entries & iconURL & _ & _ & _ & _ & [= ->] & ->).
      reflexivity. }
  split; [exact Hdata|]. intros Hage.
  destruct (getFeed_run config clock upstream w1) as (r & w2 & Hrun2 & Hcases).
  destruct Hcases as [(f & Hf & _ & -> & ->) | (w0 & Hget & _)].
  - rewrite Hdata in Hf. injection Hf as <-.
    exists (mkWorld (heap w1) (S (ticks w1)) (fetches w1) (cache w1)
                    (logged w1 ++ ["Serving from cache"%string])).
    now repeat split.
  - rewrite Cache_Get_run, Hdata in Hget.
    destruct (Z.ltb_spec (GoTime.Sub (clock (ticks w1)) (Cache.fetchedAt (cache w1)))
                         (Cache.duration (cache w1))); [discriminate | lia].
Qed.

(** X4: every call of [getFeed] returns, writes exactly one line to
    the log and sends at most one request, and the line tells which:
    "Serving from cache" goes with no request and a feed returned,
    "Fetching fresh data from API" with exactly one request. No call
    changes the duration of the cache. *)
Theorem getFeed_accounting w :
  exists r w',
    getFeed config clock upstream w = Some (r, w') /\
    Cache.duration (cache w') = Cache.duration (cache w) /\
    ((logged w' = logged w ++ ["Serving from cache"%string] /\
      fetches w' = fetches w /\ (exists feed, r = Ok feed)) \/
     (logged w' = logged w ++ ["Fetching fresh data from API"%string] /\
      fetches w' = S (fetches w))).
Proof.
  destruct (getFeed_run config clock upstream w) as (r & w' & Hrun & Hcases).
  exists r, w'. split; [exact Hrun|].
  destruct Hcases as [(feed & _ & _ & -> & ->) | (w1 & _ & [(err & _ & _ & ->) | Hok])].
  - split; [reflexivity|]. left. repeat split. now exists feed.
  - split; [reflexivity|]. now right.
  - destruct Hok as (calendar & w2 & src & entries & iconURL & _ & _ & _ & _ & _ & ->).
    split; [reflexivity|]. now right.
Qed.

(** X5: any number of calls of [getFeed], one after the other, run to
    the end from any world, whatever the API answers and the clock
    shows: a failed call does not break the calls after it. The calls
    write one line each to the log, the requests sent are as many as
    the lines "Fetching fresh data from API", the calls that fail are
    at most as many as the requests, and the duration of the cache is
    at the end what it was at the start. *)
Theorem serve_runs n : forall w,
  exists rs w' lines,
    serve config clock upstream n w = Some (rs, w') /\
    List.length rs = n /\
    Cache.duration (cache w') = Cache.duration (cache w) /\
    logged w' = logged w ++ lines /\
    List.length lines = n /\
    fetches w'
    = (fetches w + count_occ string_dec lines "Fetching fresh data from API"%string)%nat /\
    (List.length (filter failed rs) <= fetches w' - fetches w)%nat.
Proof.
  induction n as [|n IH]; intros w.
  - exists [], w, []. cbn [serve ret]. rewrite app_nil_r. repeat split; simpl; lia.
  - destruct (getFeed_run config clock upstream w) as (r & w1 & Hrun & Hcases).
    destruct (IH w1) as (rs & w' & lines & Hserve & Hlen & Hdur & Hlog & Hlines & Hfetch & Hfail).
    assert (Hstep : exists line,
      logged w1 = logged w ++ [line] /\
      Cache.duration (cache w1) = Cache.duration (cache w) /\
      fetches w1
      = (fetches w + count_occ string_dec [line] "Fetching fresh data from API"%string)%nat /\
      ((if failed r then 1 else 0) <= fetches w1 - fetches w)%nat).
    { destruct Hcases as [(feed & _ & _ & -> & ->) | (w0 & _ & [(err & _ & -> & ->) | Hok])].
      - exists "Serving from cache"%string. cbn [logged cache fetches failed count_occ].
        destruct (string_dec _ _); [discriminate|]. repeat split; lia.
      - exists "Fetching fresh data from API"%string.
        cbn [logged cache fetches failed count_occ].
        destruct (string_dec _ _); [|congruence]. repeat split; lia.
      - destruct Hok as (calendar & w2 & src & entries & iconURL & _ & _ & _ & _ & -> & ->).
        exists "Fetching fresh data from API"%string.
        cbn [logged cache fetches failed count_occ Cache.duration].
        destruct (string_dec _ _); [|congruence]. repeat split; lia. }
    destruct Hstep as (line & Hlog1 & Hdur1 & Hfetch1 & Hfail1).
    exists (r :: rs), w', (line :: lines).
    cbn [serve]. rewrite (bind_run _ _ _ _ _ Hrun), (bind_run _ _ _ _ _ Hserve).
    split; [reflexivity|]. split; [simpl; lia|]. split; [congruence|].
    split; [rewrite Hlog, Hlog1, <- app_assoc; reflexivity|].
    split; [simpl; lia|].
    change (line :: lines) with ([line] ++ lines). rewrite count_occ_app.
    split; [lia|].
    cbn [filter]. destruct (failed r); simpl; lia.
Qed.

(** X6: from the response to the feed. With nothing stored, as when
    [main] has just started, and a response with the status 200 whose
    body decodes to at least one envelope, [getFeed] returns a feed
    made from the first envelope: one entry for each of its products,
    the title and the subtitle from its header, the icon its header's
    image after the rewrite. The clock is read twice: first for the
    feed's time of update, then for the time of storing, so the
    freshness window starts when the feed is stored, not when it was
    fetched or built. *)
Theorem first_feed w body c rest :
  Cache.data (cache w) = None ->
  upstream (fetches w) = Upstream.HttpResponse 200 body (inr (c :: rest)) ->
  exists feed w' sorted,
    getFeed config clock upstream w = Some (Ok feed, w') /\
    Permutation (Upstream.Products c) sorted /\
    Forall2 (fun p e => entry config p = Some e) sorted (AtomFeed.Entries feed) /\
    AtomFeed.Title feed
    = (Header.Title (Upstream.Header c) ++ " - "
       ++ StoreConfig.Name (Config.Store config))%string /\
    AtomFeed.Subtitle feed = Header.Description (Upstream.Header c) /\
    fixIconURL (Header.ImageURL (Upstream.Header c)) = Some (AtomFeed.Icon feed) /\
    AtomFeed.Updated feed = time_Format (clock (ticks w)) /\
    cache w' = Cache.mk (Some feed) (clock (S (ticks w))) (Cache.duration (cache w)) /\
    fetches w' = S (fetches w).
Proof.
  intros Hdata Hup.
  destruct (getFeed_run config clock upstream w) as (r & w' & Hrun & Hcases).
  destruct Hcases as [(feed & Hf & _) | (w1 & Hget & Hcases)]; [congruence|].
  rewrite Cache_Get_run, Hdata in Hget. injection Hget as <-.
  destruct Hcases as [(err & Hfetch & _) | Hok].
  - exfalso. apply fetchAdventCalendar_message in Hfetch.
    cbn [fetches asking set_logged] in Hfetch. now rewrite Hup in Hfetch.
  - destruct Hok as (calendar & w2 & src & entries & iconURL
                     & Hfetch & Hsrc & Hall & Hicon & -> & ->).
    destruct (fetchAdventCalendar_Ok _ _ _ _ Hfetch)
      as (body' & c' & rest' & Hup' & _ & Hhead & Hsrc' & _).
    cbn [fetches asking set_logged] in Hup'. rewrite Hup in Hup'.
    injection Hup' as <- <- <-.
    assert (src = Upstream.Products c) as ->.
    { destruct (AdventCalendar.Products calendar); simpl in Hsrc, Hsrc'; congruence. }
    do 2 eexists. exists (sort_Slice later (Upstream.Products c)).
    split; [exact Hrun|]. split; [apply sort_Slice_perm|]. split; [exact Hall|].
    cbn [feed_of AtomFeed.Title AtomFeed.Subtitle AtomFeed.Icon AtomFeed.Updated
         cache fetches]. rewrite Hhead in *. now repeat split.
Qed.
End ServiceFacts.

Lemma no_caching_without_duration_witness :
  Cache.duration (cache Disabled.world) <= 0 /\
  instant (Cache.fetchedAt (cache Disabled.world))
  <= instant (Sample.clock (ticks Disabled.world)) /\
  exists r w',
    getFeed Sample.config Sample.clock Answered.upstream Disabled.world = Some (r, w') /\
    fetches w' = 2%nat.
Proof.
  assert (Hdur : Cache.duration (cache Disabled.world) <= 0) by (vm_compute; discriminate).
  assert (Hnow : instant (Cache.fetchedAt (cache Disabled.world))
                 <= instant (Sample.clock (ticks Disabled.world)))
    by (vm_compute; discriminate).
  split; [exact Hdur|]. split; [exact Hnow|].
  destruct (no_caching_without_duration Sample.config Sample.clock Answered.upstream
              Disabled.world Hdur Hnow) as (r & w' & Hrun & Hfetches & _).
  exists r, w'. split; [exact Hrun | exact Hfetches].
Defined.

Lemma getFeed_again_witness :
  exists feed w1,
    getFeed Sample.config Sample.clock Answered.upstream (initial Sample.config)
    = Some (Ok feed, w1) /\
    GoTime.Sub (Sample.clock (ticks w1)) (Cache.fetchedAt (cache w1))
    < Cache.duration (cache w1) /\
    exists w2,
      getFeed Sample.config Sample.clock Answered.upstream w1 = Some (Ok feed, w2) /\
      fetches w2 = fetches w1.
Proof.
  do 2 eexists.
  match goal with
  | |- ?A /\ _ => assert (Hrun : A) by (vm_compute; reflexivity)
  end.
  split; [exact Hrun|].
  match goal with
  | |- ?A /\ _ => assert (Hage : A) by (vm_compute; reflexivity)
  end.
  split; [exact Hage|].
  destruct (proj2 (getFeed_again Sample.config Sample.clock Answered.upstream _ _ _ Hrun) Hage)
    as (w2 & Hrun2 & Hfetches & _).
  exists w2. split; [exact Hrun2 | exact Hfetches].
Defined.

Lemma first_feed_witness :
  Cache.data (cache (initial Sample.config)) = None /\
  exists feed w',
    getFeed Sample.config Sample.clock Answered.upstream (initial Sample.config)
    = Some (Ok feed, w') /\
    AtomFeed.Title feed = "Advent - Galaxus"%string /\
    AtomFeed.Updated feed = time_Format (Sample.clock 0) /\
    Cache.fetchedAt (cache w') = Sample.clock 1 /\
    fetches w' = 1%nat.
Proof.
  split; [reflexivity|].
  destruct (first_feed Sample.config Sample.clock Answered.upstream (initial Sample.config)
              _ _ _ eq_refl eq_refl)
    as (feed & w' & sorted & Hrun & _ & _ & Htitle & _ & _ & Hupdated & Hcache & Hfetches).
  exists feed, w'. split; [exact Hrun|]. split; [exact Htitle|]. split; [exact Hupdated|].
  split; [rewrite Hcache; reflexivity | exact Hfetches].
Defined.

(** Three calls in a row against the API of the session: the first
    fails, the second stores a feed, the third serves it. *)
Example serve_three :
  option_map (fun r => (map failed (fst r), fetches (snd r), logged (snd r)))
             (serve Sample.config Sample.clock Session.upstream 3 Session.start)
  = Some ([true; false; false], 2%nat,
          ["Fetching fresh data from API"%string; "Fetching fresh data from API"%string;
           "Serving from cache"%string]).
Proof. vm_compute. reflexivity. Qed.

(** ** The failures of the client *)

Lemma prefix_nil s : String.prefix "" s = true.
Proof. now destruct s. Qed.

Lemma prefix_app s : forall t, String.prefix s (s ++ t) = true.
Proof.
  induction s as [|a s IH]; intros t.
  - apply prefix_nil.
  - simpl. destruct (ascii_dec a a) as [_|Hne]; [apply IH | now elim Hne].
Qed.

Section ClientFacts.
Context {lib : GoLib}.
Variable config : Config.t.
Variable clock : nat -> Time.
Variable upstream : nat -> Upstream.Response.

(** X7: what a call of [fetchAdventCalendar] comes to. It returns, and
    has sent exactly one request; it does not read the clock, touch the
    cache, write to the log or change an array of the store. It returns
    a calendar exactly when the response has the status 200 and a body
    that decodes to at least one envelope; a body that would decode is
    not looked at under any other status. The calendar is that of the
    first envelope, the others are ignored: its date and header, and
    its products, placed in the store. A failure leaves the store as
    it is. *)
Theorem fetchAdventCalendar_outcome w :
  exists r w',
    fetchAdventCalendar upstream w = Some (r, w') /\
    fetches w' = S (fetches w) /\
    ticks w' = ticks w /\ cache w' = cache w /\ logged w' = logged w /\
    (forall a arr, nth_error (heap w) a = Some arr -> nth_error (heap w') a = Some arr) /\
    ((exists calendar, r = Ok calendar) <->
     (exists body c rest,
        upstream (fetches w) = Upstream.HttpResponse 200 body (inr (c :: rest)))) /\
    (forall calendar body c rest,
       r = Ok calendar ->
       upstream (fetches w) = Upstream.HttpResponse 200 body (inr (c :: rest)) ->
       AdventCalendar.CurrentDate calendar = Upstream.CurrentDate c /\
       AdventCalendar.Header calendar = Upstream.Header c /\
       holds w' (AdventCalendar.Products calendar) (Upstream.Products c)) /\
    (forall err, r = Err err -> heap w' = heap w).
Proof.
  destruct (fetchAdventCalendar_run upstream w) as (r & w' & Hrun & Hc & Ht & Hf & Hl & _).
  exists r, w'. split; [exact Hrun|]. do 4 (split; [assumption|]).
  destruct r as [calendar|err].
  - destruct (fetchAdventCalendar_Ok _ _ _ _ Hrun)
      as (body & c & rest & Hup & Hdate & Hhead & Hsrc & Hframe & _).
    split; [exact Hframe|]. split; [|split].
    + split; [now exists body, c, rest | now exists calendar].
    + intros calendar' body' c' rest' [= <-] Hup'. rewrite Hup in Hup'.
      injection Hup' as <- <- <-. now repeat split.
    + discriminate.
  - pose proof (fetchAdventCalendar_message _ _ _ _ Hrun) as Hmsg.
    rewrite (fetchAdventCalendar_Err _ _ _ _ Hrun). cbn [heap set_fetches].
    split; [auto|]. split; [|split].
    + split; [intros [calendar [=]]|]. intros (body & c & rest & Hup).
      now rewrite Hup in Hmsg.
    + discriminate.
    + reflexivity.
Qed.

(** The text of an error of the client tells its cause. *)
Lemma cause_of_message_sound w err w' :
  fetchAdventCalendar upstream w = Some (Err err, w') ->
  cause_of_message err = cause (upstream (fetches w)) /\
  cause (upstream (fetches w)) <> None.
Proof.
  intros Hrun. apply fetchAdventCalendar_message in Hrun. unfold cause.
  destruct (upstream (fetches w)) as [e | status body [e | [|c rest]]];
    try destruct (status =? 200); try contradiction; subst err;
    (split; [|discriminate]); unfold cause_of_message;
    try rewrite prefix_app; reflexivity.
Qed.

(** X8: the four failures of the client (the transport fails, the
    status is not 200, the body does not decode, the body decodes to no
    envelope) have four distinct signals, and they reach the caller of
    [getFeed] as they are. An error that [getFeed] returns comes from
    the one request the call has sent, and the beginning of its text
    tells which of the four happened, whatever the transport's error or
    the response's body say. A transport error is passed on after
    "failed to fetch data: "; a status other than 200, also another
    2xx, gives "API returned status", the status and the body. *)
Theorem error_tells_cause w err w' :
  getFeed config clock upstream w = Some (Err err, w') ->
  exists n,
    fetches w = n /\ fetches w' = S n /\
    cause_of_message err = cause (upstream n) /\
    cause (upstream n) <> None /\
    match upstream n with
    | Upstream.TransportError e => err = ("failed to fetch data: " ++ e)%string
    | Upstream.HttpResponse status body _ =>
        status <> 200 ->
        err = ("API returned status " ++ Fmt.d status ++ ": " ++ body)%string
    end.
Proof.
  intros Hrun. exists (fetches w). split; [reflexivity|].
  destruct (getFeed_run config clock upstream w) as (r & w1 & Hrun' & Hcases).
  rewrite Hrun in Hrun'. injection Hrun' as <- <-.
  destruct Hcases as [(f & _ & _ & [=] & _) | (w0 & Hget & [(e & Hfetch & [= <-] & ->) | Hok])].
  - split; [reflexivity|].
    apply Cache_Get_frame in Hget. destruct Hget as (_ & _ & Hf & _).
    pose proof (cause_of_message_sound _ _ _ Hfetch) as [Hcause Hsome].
    pose proof (fetchAdventCalendar_message _ _ _ _ Hfetch) as Hmsg.
    cbn [fetches asking set_logged] in Hcause, Hsome, Hmsg. rewrite Hf in Hcause, Hsome, Hmsg.
    split; [exact Hcause|]. split; [exact Hsome|].
    destruct (upstream (fetches w)) as [e | status body decoded]; [exact Hmsg|].
    intros Hne. apply Z.eqb_neq in Hne. now rewrite Hne in Hmsg.
  - destruct Hok as (calendar & w2 & src & entries & iconURL & _ & _ & _ & _ & [=] & _).
Qed.
End ClientFacts.

Lemma error_tells_cause_witness :
  exists w',
    getFeed Sample.config Sample.clock Session.upstream Session.start
    = Some (Err "failed to fetch data: dial tcp: i/o timeout", w') /\
    cause_of_message "failed to fetch data: dial tcp: i/o timeout" = Some NetworkError.
Proof.
  eexists.
  match goal with
  | |- ?A /\ _ => assert (Hrun : A) by (vm_compute; reflexivity)
  end.
  split; [exact Hrun|].
  destruct (error_tells_cause Sample.config Sample.clock Session.upstream _ _ _ Hrun)
    as (n & Hn & _ & Hcause & _).
  rewrite Hcause, <- Hn. reflexivity.
Defined.

(** A response that is fine but for its status, 201, is a failure. *)
Example created_is_an_error :
  option_map fst
    (fetchAdventCalendar
       (fun _ => Upstream.HttpResponse 201 "[]" (inr [Upstream.mkCalendar "" (Header.mk "" "" "") []]))
       (initial Sample.config))
  = Some (Err "API returned status 201: []").
Proof. reflexivity. Qed.

(** ** The handler of [/feed] *)

Section BoundaryFacts.
Context {lib : GoLib}.
Variable config : Config.t.
Variable clock : nat -> Time.
Variable upstream : nat -> Upstream.Response.
Variable xml_Encode : AtomFeed.t -> string * option string.

(** X9: [feedHandler] answers every request, in one of two ways.
    Either the status is 500, the content type plain text and the body
    the fixed line "Failed to fetch feed": then the request upstream
    has failed, the cache is as before, and the text of the error is in
    the log and nowhere in the response. Or the status is 200, the
    content type that of Atom, and the body the XML declaration and
    then what the encoder has written for a feed that is now the feed
    in the cache; an error of the encoder comes after the status is
    sent and changes nothing but the log. *)
Theorem feedHandler_answers w :
  exists rw w',
    feedHandler config clock upstream xml_Encode ResponseWriter.fresh w = Some (rw, w') /\
    ((ResponseWriter.status rw = Some 500 /\
      ResponseWriter.field "Content-Type" rw = Some "text/plain; charset=utf-8"%string /\
      ResponseWriter.body rw = ("Failed to fetch feed" ++ nl)%string /\
      cache w' = cache w /\
      cause (upstream (fetches w)) <> None /\
      exists err,
        cause_of_message err = cause (upstream (fetches w)) /\
        logged w' = logged w ++ ["Fetching fresh data from API"%string;
                                 ("Error fetching feed: " ++ err)%string]) \/
     (exists feed line,
        ResponseWriter.status rw = Some 200 /\
        ResponseWriter.field "Content-Type" rw
        = Some "application/atom+xml; charset=utf-8"%string /\
        ResponseWriter.body rw = (xml_Header ++ fst (xml_Encode feed))%string /\
        Cache.data (cache w') = Some feed /\
        logged w' = logged w ++ line ::
                    match snd (xml_Encode feed) with
                    | Some err => [("Error encoding feed: " ++ err)%string]
                    | None => []
                    end)).
Proof.
  assert (Hok : forall feed w1,
    getFeed config clock upstream w = Some (Ok feed, w1) ->
    exists rw w',
      feedHandler config clock upstream xml_Encode ResponseWriter.fresh w = Some (rw, w') /\
      ResponseWriter.status rw = Some 200 /\
      ResponseWriter.field "Content-Type" rw
      = Some "application/atom+xml; charset=utf-8"%string /\
      ResponseWriter.body rw = (xml_Header ++ fst (xml_Encode feed))%string /\
      cache w' = cache w1 /\
      logged w' = logged w1 ++
                  match snd (xml_Encode feed) with
                  | Some err => [("Error encoding feed: " ++ err)%string]
                  | None => []
                  end).
  { intros feed w1 Hrun. unfold feedHandler. rewrite (bind_run _ _ _ _ _ Hrun).
    destruct (xml_Encode feed) as [written [err|]]; cbn [fst snd].
    - do 2 eexists. split; [reflexivity|]. now repeat split.
    - do 2 eexists. split; [reflexivity|]. cbn [logged]. rewrite app_nil_r. now repeat split. }
  destruct (getFeed_run config clock upstream w) as (r & w1 & Hrun & Hcases).
  destruct Hcases
    as [(feed & Hdata & _ & -> & ->) | (w0 & Hget & [(err & Hfetch & -> & ->) | Hfresh])].
  - destruct (Hok _ _ Hrun) as (rw & w' & Hh & Hs & Hf & Hb & Hc & Hl).
    exists rw, w'. split; [exact Hh|]. right. exists feed. eexists.
    do 3 (split; [assumption|]). split; [now rewrite Hc|].
    rewrite Hl. cbn [logged]. now rewrite <- app_assoc.
  - pose proof (cause_of_message_sound _ _ _ _ Hfetch) as [Hcause Hsome].
    apply Cache_Get_frame in Hget. destruct Hget as (_ & _ & Hf & _).
    cbn [fetches asking set_logged] in Hcause, Hsome. rewrite Hf in Hcause, Hsome.
    unfold feedHandler. rewrite (bind_run _ _ _ _ _ Hrun).
    do 2 eexists. split; [reflexivity|]. left.
    do 4 (split; [reflexivity|]). split; [exact Hsome|].
    exists err. split; [exact Hcause|]. cbn [logged set_logged]. now rewrite <- app_assoc.
  - destruct Hfresh as (calendar & w2 & src & entries & iconURL & _ & _ & _ & _ & -> & ->).
    destruct (Hok _ _ Hrun) as (rw & w' & Hh & Hs & Hf & Hb & Hc & Hl).
    exists rw, w'. split; [exact Hh|]. right. eexists. eexists.
    do 3 (split; [eassumption|]). split; [now rewrite Hc|].
    rewrite Hl. cbn [logged]. now rewrite <- app_assoc.
Qed.
End BoundaryFacts.

(** The response to the first request of the session, which fails
    upstream, and the log after it. *)
Example failed_request :
  option_map (fun r => (ResponseWriter.sent (fst r), ResponseWriter.body (fst r),
                        logged (snd r)))
             (feedHandler Sample.config Sample.clock Session.upstream (fun _ => ("", None))
                          ResponseWriter.fresh Session.start)
  = Some (Some (500, [("X-Content-Type-Options", "nosniff");
                      ("Content-Type", "text/plain; charset=utf-8")])%string,
          ("Failed to fetch feed" ++ nl)%string,
          ["Fetching fresh data from API"%string;
           "Error fetching feed: failed to fetch data: dial tcp: i/o timeout"%string]).
Proof. vm_compute. reflexivity. Qed.

(** ** The numbers in the entries *)

Lemma to_int_proper z :
  Z.to_int z <> Decimal.Pos Decimal.Nil /\ Z.to_int z <> Decimal.Neg Decimal.Nil.
Proof.
  destruct z as [|p|p]; simpl; split; try discriminate;
    intros [= H]; now apply DecimalPos.Unsigned.to_uint_nonnil in H.
Qed.

(** [%d] prints different numbers differently. *)
Lemma Fmt_d_inj a b : Fmt.d a = Fmt.d b -> a = b.
Proof.
  unfold Fmt.d. intros H. apply DecimalZ.to_int_inj.
  destruct (to_int_proper a) as [Ha1 Ha2]. destruct (to_int_proper b) as [Hb1 Hb2].
  pose proof (NilZero.isi _ Ha1 Ha2) as Ia. pose proof (NilZero.isi _ Hb1 Hb2) as Ib.
  rewrite H in Ia. congruence.
Qed.

Lemma string_of_uint_unsigned u t :
  String.prefix "-" (NilZero.string_of_uint u ++ t) = false.
Proof. destruct u; reflexivity. Qed.

(** [%d] prints a minus sign in front of the negative numbers, and of
    no others. *)
Lemma Fmt_d_sign z t : String.prefix "-" (Fmt.d z ++ t) = (z <? 0).
Proof.
  unfold Fmt.d. destruct z as [|p|p]; cbn [Z.to_int NilZero.string_of_int Z.ltb Z.compare].
  - reflexivity.
  - apply string_of_uint_unsigned.
  - cbn [append String.prefix]. destruct (ascii_dec "-" "-") as [_|Hne]; [|now elim Hne].
    apply prefix_nil.
Qed.

Lemma append_inj_l s : forall a b, (s ++ a = s ++ b)%string -> a = b.
Proof.
  induction s as [|c s IH]; intros a b H; [exact H|].
  simpl in H. injection H as H. now apply IH.
Qed.

Lemma wrap64_id z : Int64.min_int <= z <= Int64.max_int -> Int64.wrap64 z = z.
Proof.
  unfold Int64.min_int, Int64.max_int, Int64.wrap64. intros H.
  rewrite Z.mod_small; lia.
Qed.

Lemma NoDup_map_finer {A B C} (f : A -> B) (g : A -> C) l :
  (forall x y, g x = g y -> f x = f y) -> NoDup (map f l) -> NoDup (map g l).
Proof.
  intros Hfg. induction l as [|a l IH]; simpl; intros H; [constructor|].
  inversion_clear H as [|? ? Hnotin Hnodup]. constructor; [|now apply IH].
  intros Hin. apply Hnotin. apply in_map_iff in Hin. destruct Hin as (x & Hx & Hxl).
  apply in_map_iff. exists x. split; [now apply Hfg | exact Hxl].
Qed.

Lemma Forall2_fun {A B} (f : A -> option B) l : forall l1 l2,
  Forall2 (fun a b => f a = Some b) l l1 -> Forall2 (fun a b => f a = Some b) l l2 -> l1 = l2.
Proof.
  induction l as [|a l IH]; intros l1 l2 H1 H2; inversion H1; inversion H2; subst;
    [reflexivity|]. f_equal; [congruence | now apply IH].
Qed.

Section EntryFacts.
Context {lib : GoLib}.
Variable config : Config.t.

Lemma entry_Link p e :
  entry config p = Some e -> AtomLink.Href (AtomEntry.Link e) = productURL config p.
Proof.
  unfold entry. destruct (imageHTML p); [|discriminate]. now intros [= <-].
Qed.

Lemma entries_links products entries :
  Forall2 (fun p e => entry config p = Some e) products entries ->
  map (fun e => AtomLink.Href (AtomEntry.Link e)) entries = map (productURL config) products.
Proof.
  induction 1 as [|p e products entries He _ IH]; simpl; [reflexivity|].
  now rewrite IH, (entry_Link p e He).
Qed.

Lemma stableID_inj p q :
  stableID p = stableID q ->
  ProductInfo.ProductID (Product.Product p) = ProductInfo.ProductID (Product.Product q).
Proof.
  unfold stableID. intros H. now apply append_inj_l, Fmt_d_inj in H.
Qed.

Lemma productURL_inj p q :
  productURL config p = productURL config q ->
  ProductInfo.ProductID (Product.Product p) = ProductInfo.ProductID (Product.Product q).
Proof.
  unfold productURL. intros H. now apply append_inj_l, append_inj_l, Fmt_d_inj in H.
Qed.

(** X10: products with different numeric ids get different entry ids
    and different links, so a feed over products whose numeric ids are
    all different has no entry id and no link twice: a reader never
    takes two products of one feed for one. *)
Theorem distinct_products_distinct_entries clock calendar w src :
  holds w (AdventCalendar.Products calendar) src ->
  NoDup (map (fun p => ProductInfo.ProductID (Product.Product p)) src) ->
  exists feed w',
    buildAtomFeed config clock calendar w = Some (feed, w') /\
    NoDup (map AtomEntry.ID (AtomFeed.Entries feed)) /\
    NoDup (map (fun e => AtomLink.Href (AtomEntry.Link e)) (AtomFeed.Entries feed)) /\
    (forall p q,
       ProductInfo.ProductID (Product.Product p) <> ProductInfo.ProductID (Product.Product q) ->
       stableID p <> stableID q /\ productURL config p <> productURL config q).
Proof.
  intros Hsrc Hnodup.
  destruct (buildAtomFeed_run config clock calendar w src Hsrc)
    as (entries & iconURL & Hall & _ & Hrun).
  do 2 eexists. split; [exact Hrun|]. cbn [feed_of AtomFeed.Entries].
  assert (Hsorted : NoDup (map (fun p => ProductInfo.ProductID (Product.Product p))
                               (sort_Slice later src))).
  { eapply Permutation_NoDup; [|exact Hnodup]. apply Permutation_map, sort_Slice_perm. }
  split; [|split].
  - rewrite (entries_ids config _ _ Hall).
    revert Hsorted. apply NoDup_map_finer. exact stableID_inj.
  - rewrite (entries_links _ _ Hall).
    revert Hsorted. apply NoDup_map_finer. exact productURL_inj.
  - intros p q Hne.
    split; intros H; apply Hne; [now apply stableID_inj | now apply productURL_inj].
Qed.

(** X11: the feed depends on the header and on the products of the
    calendar, and on nothing else but the clock. Two runs of the
    builder on calendars with the same header and the same products,
    in whatever worlds, at whatever addresses and with whatever dates
    of the calendars, give feeds that are equal in every field but the
    time of update, which is the one reading of the clock each run
    takes. The builder sends no request and writes nothing to the
    log. *)
Theorem buildAtomFeed_reads_contents clock1 clock2 c1 c2 w1 w2 src :
  holds w1 (AdventCalendar.Products c1) src ->
  holds w2 (AdventCalendar.Products c2) src ->
  AdventCalendar.Header c1 = AdventCalendar.Header c2 ->
  exists f1 w1' f2 w2',
    buildAtomFeed config clock1 c1 w1 = Some (f1, w1') /\
    buildAtomFeed config clock2 c2 w2 = Some (f2, w2') /\
    f1 = AtomFeed.mk (AtomFeed.XMLNS f2) (AtomFeed.Title f2) (AtomFeed.Subtitle f2)
                     (AtomFeed.Link f2) (AtomFeed.Icon f2)
                     (time_Format (clock1 (ticks w1)))
                     (AtomFeed.ID f2) (AtomFeed.Author f2) (AtomFeed.Entries f2) /\
    AtomFeed.Updated f2 = time_Format (clock2 (ticks w2)) /\
    ticks w1' = S (ticks w1) /\ fetches w1' = fetches w1 /\ logged w1' = logged w1.
Proof.
  intros H1 H2 Hhead.
  destruct (buildAtomFeed_run config clock1 c1 w1 src H1) as (e1 & i1 & Hall1 & Hi1 & Hrun1).
  destruct (buildAtomFeed_run config clock2 c2 w2 src H2) as (e2 & i2 & Hall2 & Hi2 & Hrun2).
  do 4 eexists. split; [exact Hrun1|]. split; [exact Hrun2|].
  rewrite (Forall2_fun _ _ _ _ Hall1 Hall2).
  rewrite Hhead, Hi2 in Hi1. injection Hi1 as <-.
  unfold feed_of. cbn. rewrite Hhead. now repeat split.
Qed.

(** X12: the stock line is not clamped. For counts that are not
    negative, the number remaining is the total less the number sold,
    with no wrap-around, and the line is that number, a slash, the
    total and " remaining"; it begins with a minus sign exactly when
    more were sold than there were. *)
Theorem stock_line p :
  let total := SalesInformation.NumberOfItems (Offer.SalesInformation (Product.Offer p)) in
  let sold := SalesInformation.NumberOfItemsSold (Offer.SalesInformation (Product.Offer p)) in
  0 <= total <= Int64.max_int ->
  0 <= sold <= Int64.max_int ->
  remaining p = total - sold /\
  stockInfo p = (Fmt.d (total - sold) ++ "/" ++ Fmt.d total ++ " remaining")%string /\
  (String.prefix "-" (stockInfo p) = true <-> total < sold).
Proof.
  intros total sold Htotal Hsold.
  assert (Hrem : remaining p = total - sold).
  { unfold remaining, Int64.sub. apply wrap64_id.
    unfold Int64.min_int, Int64.max_int in *. subst total sold. lia. }
  split; [exact Hrem|]. unfold stockInfo. rewrite Hrem. split; [reflexivity|].
  rewrite Fmt_d_sign. rewrite Z.ltb_lt. lia.
Qed.
End EntryFacts.

Lemma distinct_products_distinct_entries_witness :
  holds Sample.world (AdventCalendar.Products Sample.calendar) Sample.products /\
  NoDup (map (fun p => ProductInfo.ProductID (Product.Product p)) Sample.products) /\
  exists feed w',
    buildAtomFeed Sample.config Sample.clock Sample.calendar Sample.world = Some (feed, w') /\
    NoDup (map AtomEntry.ID (AtomFeed.Entries feed)).
Proof.
  assert (Hnodup : NoDup (map (fun p => ProductInfo.ProductID (Product.Product p))
                              Sample.products)).
  { repeat constructor; simpl; intuition discriminate. }
  split; [reflexivity|]. split; [exact Hnodup|].
  destruct (distinct_products_distinct_entries Sample.config Sample.clock Sample.calendar
              Sample.world Sample.products eq_refl Hnodup) as (feed & w' & Hrun & Hids & _).
  exists feed, w'. split; [exact Hrun | exact Hids].
Defined.

Lemma buildAtomFeed_reads_contents_witness :
  holds Sample.world (AdventCalendar.Products Sample.calendar) Sample.products /\
  holds Moved.world (AdventCalendar.Products Moved.calendar) Sample.products /\
  AdventCalendar.Header Sample.calendar = AdventCalendar.Header Moved.calendar /\
  exists f1 w1' f2 w2',
    buildAtomFeed Sample.config Sample.clock Sample.calendar Sample.world = Some (f1, w1') /\
    buildAtomFeed Sample.config Moved.clock Moved.calendar Moved.world = Some (f2, w2') /\
    AtomFeed.Entries f1 = AtomFeed.Entries f2 /\
    AtomFeed.Updated f1 = "2024-12-01T00:00:00Z"%string /\
    AtomFeed.Updated f2 = "2024-12-02T00:00:05Z"%string.
Proof.
  split; [reflexivity|]. split; [reflexivity|]. split; [reflexivity|].
  destruct (buildAtomFeed_reads_contents Sample.config Sample.clock Moved.clock
              Sample.calendar Moved.calendar Sample.world Moved.world Sample.products
              eq_refl eq_refl eq_refl)
    as (f1 & w1' & f2 & w2' & Hrun1 & Hrun2 & Hf1 & Hup2 & _).
  exists f1, w1', f2, w2'. split; [exact Hrun1|]. split; [exact Hrun2|].
  rewrite Hf1, Hup2. split; [reflexivity|]. split; vm_compute; reflexivity.
Defined.

Lemma stock_line_witness :
  0 <= 50 <= Int64.max_int /\ 0 <= 53 <= Int64.max_int /\
  remaining oversold = -3 /\
  stockInfo oversold = "-3/50 remaining"%string.
Proof.
  assert (H50 : 0 <= 50 <= Int64.max_int) by (vm_compute; split; discriminate).
  assert (H53 : 0 <= 53 <= Int64.max_int) by (vm_compute; split; discriminate).
  split; [exact H50|]. split; [exact H53|]. split.
  - exact (proj1 (stock_line oversold H50 H53)).
  - exact (proj1 (proj2 (stock_line oversold H50 H53))).
Defined.

(** Outside that range the difference wraps around: the least [int]
    less one is the greatest. *)
Example remaining_wraps :
  remaining (Product.mk (Product.Product Sample.early)
                        (Offer.mk (Price.mk (Float64.of_Z 5) "CHF")
                                  (SalesInformation.mk Int64.min_int 1 "") None))
  = Int64.max_int.
Proof. reflexivity. Qed.
